(** * Exercise posture assistant: angle pipeline, repetition counting, scoring

    A shallow embedding of the numeric core of [ex.py] (class
    [ExercisePoseApp]): [calculate_angle], the [angle_buffer] moving
    average, the repetition bookkeeping of [process_camera_feed],
    [generate_feedback] and the scoring of [save_session].

    Number model.  Python ints are [Z].  The angles that travel through
    the frame loop are numpy [float64] values.  Two models of them are
    kept side by side.

    - The frame loop, the repetition tracker, the feedback classifier and
      the score are written over exact rationals [Q].  What is proved of
      them is meant for the properties that rounding cannot disturb:
      comparisons with integer thresholds, monotone operations, deviations
      that are exactly 0 or 1, and the structure of the lists.
    - Where a statement hinges on the value an arithmetic operation
      returns, the same lines are written a second time over IEEE 754
      binary64 ([spec_float] with precision 53 and maximal exponent 1024,
      every operation rounded to nearest even): [average64],
      [smooth_frames], [performance_score64].

    [calculate_angle] needs [arctan2] and is stated over the reals [R];
    [calculate_angle_int64] adds the int64 arithmetic that [np.array]
    gives the coordinate differences of integer pixel coordinates. *)

From Stdlib Require Import ZArith QArith Qabs Qround Qminmax.
From Stdlib Require Import List String Bool Lia Sorted.
From Stdlib Require Import Lqa.
From Stdlib Require Import Reals Lra.
From Stdlib Require Import SpecFloat.
Import ListNotations.

Local Open Scope string_scope.
Local Open Scope list_scope.
Local Open Scope Z_scope.
Local Open Scope Q_scope.

(** ** Exercise registry ([self.exercise_data], lines 96-157) *)

(** The ["target_angles"] dictionary of one exercise. *)
Record TargetAngles : Set := mkTarget {
  t_min : Z;      (* "min" *)
  t_max : Z;      (* "max" *)
  t_ideal : Z     (* "ideal" *)
}.

Record ExerciseData : Set := mkExercise {
  name : string;
  keypoints : list nat;
  target_angles : TargetAngles
}.

Definition bicep_curl : ExerciseData :=
  mkExercise "Bicep Curl" [11; 13; 15]%nat (mkTarget 30 160 90).
Definition push_up : ExerciseData :=
  mkExercise "Push-Up" [11; 13; 15; 23; 25; 27]%nat (mkTarget 80 160 90).
Definition squat : ExerciseData :=
  mkExercise "Squat" [23; 25; 27]%nat (mkTarget 70 170 110).
Definition shoulder_press : ExerciseData :=
  mkExercise "Shoulder Press" [11; 13; 15]%nat (mkTarget 60 170 160).

(** The dictionary itself, in insertion order. *)
Definition exercise_table : list (string * ExerciseData) :=
  [ ("bicep curl", bicep_curl); ("push-up", push_up);
    ("squat", squat); ("shoulder press", shoulder_press) ].

Fixpoint dict_get {A : Type} (d : list (string * A)) (key : string) : option A :=
  match d with
  | [] => None
  | (k, v) :: rest => if String.eqb key k then Some v else dict_get rest key
  end.

(** [self.exercise_data[key]]; [None] stands for Python's [KeyError]. *)
Definition exercise_data (key : string) : option ExerciseData :=
  dict_get exercise_table key.

(** ** Comparisons of an angle with an integer threshold *)

Definition Qltb (x y : Q) : bool := negb (Qle_bool y x).
Definition Qgtb (x y : Q) : bool := Qltb y x.

(** ** Smoothing buffer ([deque(maxlen=10)], lines 164 and 881-882) *)

Definition maxlen : nat := 10.

(** [deque.append] on a bounded deque: a full deque drops its left end. *)
Definition deque_append {A : Type} (cap : nat) (buf : list A) (x : A)
  : list A :=
  if (List.length buf <? cap)%nat then buf ++ [x] else tl (buf ++ [x]).

(** Python's [sum]: start at 0, add from the left. *)
Definition py_sum (l : list Q) : Q := fold_left Qplus l 0.

Definition len (l : list Q) : Q := inject_Z (Z.of_nat (List.length l)).

(** [sum(buf) / len(buf)], every operation exact; [average64] below is
    the same line with the rounding of binary64. *)
Definition average (buf : list Q) : Q := py_sum buf / len buf.

(** ** Repetition tracking (lines 829-832 and 903-958) *)

(** The values the local [direction] takes: Python's [None] before the
    first valid frame, then the strings ["none"], ["up"], ["down"]. *)
Inductive Direction : Set :=
  | dir_None      (* None *)
  | dir_none      (* "none" *)
  | dir_up        (* "up" *)
  | dir_down.     (* "down" *)

Definition dir_eqb (d e : Direction) : bool :=
  match d, e with
  | dir_None, dir_None | dir_none, dir_none
  | dir_up, dir_up | dir_down, dir_down => true
  | _, _ => false
  end.

(** The loop's locals together with [self.session_reps]. *)
Record RepState : Set := mkRep {
  prev_angle : option Q;
  direction : Direction;
  rep_counted : bool;
  session_reps : nat
}.

(** State at the top of [process_camera_feed], after [start_camera] has
    zeroed the counter. *)
Definition rep_init : RepState := mkRep None dir_None false 0.

(** The shape every exercise branch has:
      if <completed>: if not rep_counted: count, rep_counted = True
      elif <reset>:   rep_counted = False *)
Definition hysteresis (completed reset : bool) (rc : bool) (reps : nat)
  : bool * nat :=
  if completed then
    if negb rc then (true, S reps) else (rc, reps)
  else if reset then (false, reps)
  else (rc, reps).

(** Lines 910-952: the branch of the current exercise, [(rc, reps)]
    unchanged for an exercise with no branch. *)
Definition detect_rep (current_exercise : string) (t : TargetAngles)
    (dir cur : Direction) (prev avg_angle : Q) (rc : bool) (reps : nat)
  : bool * nat :=
  if String.eqb current_exercise "bicep curl" then
    hysteresis (dir_eqb dir dir_down && dir_eqb cur dir_up
                  && Qltb prev (inject_Z (t_min t + 10)))
               (Qgtb avg_angle (inject_Z (t_max t - 20))) rc reps
  else if String.eqb current_exercise "push-up" then
    hysteresis (dir_eqb dir dir_up && dir_eqb cur dir_down
                  && Qgtb prev (inject_Z (t_max t - 20)))
               (Qltb avg_angle (inject_Z (t_min t + 20))) rc reps
  else if String.eqb current_exercise "squat" then
    hysteresis (dir_eqb dir dir_up && dir_eqb cur dir_down
                  && Qgtb prev (inject_Z (t_max t - 20)))
               (Qltb avg_angle (inject_Z (t_min t + 20))) rc reps
  else if String.eqb current_exercise "shoulder press" then
    hysteresis (dir_eqb dir dir_down && dir_eqb cur dir_up
                  && Qgtb prev (inject_Z (t_max t - 10)))
               (Qltb avg_angle (inject_Z (t_min t + 10))) rc reps
  else (rc, reps).

(** Lines 903-958 for one smoothed angle. *)
Definition track_rep (current_exercise : string) (t : TargetAngles)
    (st : RepState) (avg_angle : Q) : RepState :=
  match prev_angle st with
  | Some prev =>
      let cur := if Qgtb avg_angle prev then dir_up else dir_down in
      let '(rc, reps) :=
        detect_rep current_exercise t (direction st) cur prev avg_angle
                   (rep_counted st) (session_reps st) in
      mkRep (Some avg_angle) cur rc reps
  | None =>
      mkRep (Some avg_angle) dir_none (rep_counted st) (session_reps st)
  end.

(** The tracker run over a sequence of smoothed angles. *)
Definition track_reps (current_exercise : string) (t : TargetAngles)
    (st : RepState) (angles : list Q) : RepState :=
  fold_left (track_rep current_exercise t) angles st.

(** ** Feedback (lines 986-1021) *)

Definition generate_feedback (angle : Q) (t : TargetAngles)
    (exercise_type : string) : string :=
  let hi := inject_Z (t_max t - 10) in
  let lo := inject_Z (t_min t + 10) in
  if String.eqb exercise_type "bicep curl" then
    if Qgtb angle hi then "Extend more"
    else if Qltb angle lo then "Curl Complete"
    else "Good Form"
  else if String.eqb exercise_type "push-up" then
    if Qgtb angle hi then "Keep body straight"
    else if Qltb angle lo then "Good Form"
    else "Adjust your posture"
  else if String.eqb exercise_type "squat" then
    if Qltb angle lo then "Too Low"
    else if Qgtb angle hi then "Stand Up Straight"
    else "Good Squat"
  else if String.eqb exercise_type "shoulder press" then
    if Qgtb angle hi then "Locked Out"
    else if Qltb angle lo then "Push Higher"
    else "Good Form"
  else "No feedback available".

(** Python's [needle in hay] on strings. *)
Fixpoint str_in (needle hay : string) : bool :=
  if String.prefix needle hay then true
  else match hay with
       | EmptyString => false
       | String _ rest => str_in needle rest
       end.

(** Line 965: the messages the frame loop shows in the success colour. *)
Definition is_good (feedback : string) : bool := str_in "Good" feedback.

(** ** The frame loop (lines 849-962) *)

Record Session : Set := mkSession {
  angle_buffer : list Q;
  session_angles : list Q;
  session_feedback : list string;
  rep : RepState
}.

(** [start_camera] (lines 792-796) followed by the locals of line 830-832. *)
Definition start_camera : Session := mkSession [] [] [] rep_init.

(** One frame with pose landmarks; [angle] is what [calculate_angle]
    returned for its three keypoints. *)
Definition process_landmarks (current_exercise : string) (t : TargetAngles)
    (s : Session) (angle : Q) : Session :=
  let buf := deque_append maxlen (angle_buffer s) angle in
  let avg_angle := average buf in
  mkSession buf
            (session_angles s ++ [avg_angle])
            (session_feedback s
               ++ [generate_feedback avg_angle t current_exercise])
            (track_rep current_exercise t (rep s) avg_angle).

(** A frame is [Some angle] when [pose_results.pose_landmarks] is set and
    [None] otherwise; the latter leaves every variable untouched. *)
Definition process_frame (current_exercise : string) (t : TargetAngles)
    (s : Session) (frame : option Q) : Session :=
  match frame with
  | Some angle => process_landmarks current_exercise t s angle
  | None => s
  end.

Definition process_frames (current_exercise : string) (t : TargetAngles)
    (s : Session) (frames : list (option Q)) : Session :=
  fold_left (process_frame current_exercise t) frames s.

(** The loop for the selected exercise.  The registry is consulted
    (line 868) for a frame that carries landmarks and for no other;
    [None] is the [KeyError] it raises for a name that is not a key,
    which ends the loop. *)
Definition process_camera_feed (current_exercise : string)
    (frames : list (option Q)) : option Session :=
  fold_left
    (fun (st : option Session) (frame : option Q) =>
       match st, frame with
       | Some s, Some angle =>
           match exercise_data current_exercise with
           | Some e =>
               Some (process_landmarks current_exercise (target_angles e)
                                       s angle)
           | None => None
           end
       | Some s, None => Some s
       | None, _ => None
       end)
    frames (Some start_camera).

(** ** End-of-session scoring ([save_session], lines 1047-1073) *)

(** The entries of [session_angles] are numpy [float64] scalars
    ([calculate_angle] returns [np.abs(...)], and [sum(...) / len(...)]
    keeps the type), so the quotient of line 1059 is numpy's: a zero
    divisor gives [inf], or [nan] for [0.0 / 0], with a warning and no
    exception. *)
Inductive np_float : Set :=
  | Finite (q : Q)
  | np_inf
  | np_nan.

Definition np_divide (x : Q) (d : Z) : np_float :=
  if (d =? 0)%Z then (if Qeq_bool x 0 then np_nan else np_inf)
  else Finite (x / inject_Z d).

(** [min(1.0, v)]: [v] when [v < 1.0], else [1.0]; a comparison with
    [nan] is false. *)
Definition min_one (v : np_float) : Q :=
  match v with
  | Finite q => if Qltb q 1 then q else 1
  | np_inf => 1
  | np_nan => 1
  end.

(** Python's [int] on a float: truncation toward zero. *)
Definition py_int (q : Q) : Z := Z.quot (Qnum q) (Zpos (Qden q)).

(** Lines 1054-1055. *)
Definition max_deviation (t : TargetAngles) : Z :=
  Z.max (t_ideal t - t_min t) (t_max t - t_ideal t).

(** Lines 1057-1060. *)
Definition deviations (t : TargetAngles) (angles : list Q) : list Q :=
  map (fun angle =>
         min_one (np_divide (Qabs (angle - inject_Z (t_ideal t)))
                            (max_deviation t)))
      angles.

(** Lines 1062-1063, every operation exact; [performance_score64] below
    is the same computation with the rounding of binary64. *)
Definition performance_score (t : TargetAngles) (angles : list Q) : Z :=
  let avg_deviation := average (deviations t angles) in
  py_int ((1 - avg_deviation) * 100).

(** The dictionary of lines 1066-1073 without its ["date"]. *)
Record SessionRecord : Set := mkRecord {
  rec_exercise : string;
  rec_duration : Z;
  rec_reps : nat;
  rec_performance : Z;
  rec_angles : list Q
}.

(** [exercise] is the registry entry of the current exercise, [duration]
    the elapsed seconds; [None] is the early [return] of line 1049. *)
Definition save_session (exercise : ExerciseData) (duration : Z)
    (s : Session) : option SessionRecord :=
  match session_angles s with
  | [] => None
  | _ :: _ =>
      Some (mkRecord (name exercise)
                     (duration / 60)
                     (session_reps (rep s))
                     (performance_score (target_angles exercise)
                                        (session_angles s))
                     (firstn 100 (session_angles s)))
  end.

(** ** Joint angle ([calculate_angle], lines 1752-1760) *)

Definition Point : Type := (R * R)%type.

(** [np.arctan2 y x], the angle of the point [(x, y)] in (-PI, PI]. *)
Definition arctan2 (y x : R) : R :=
  if Rlt_dec 0 x then atan (y / x)
  else if Rlt_dec x 0 then
    (if Rle_dec 0 y then atan (y / x) + PI else atan (y / x) - PI)%R
  else if Rlt_dec 0 y then (PI / 2)%R
  else if Rlt_dec y 0 then (- (PI / 2))%R
  else 0%R.

(** Lines 1756-1760 on three points of the plane, in exact arithmetic;
    [calculate_angle_int64] below adds the int64 differences that integer
    pixel coordinates get. *)
Definition calculate_angle (a b c : Point) : R :=
  let radians :=
    (arctan2 (snd c - snd b) (fst c - fst b)
     - arctan2 (snd a - snd b) (fst a - fst b))%R in
  let angle := Rabs (radians * 180 / PI) in
  if Rlt_dec 180 angle then (360 - angle)%R else angle.

(** ** What the specification words say, for comparison with the code *)

(** Python's [round]: to the nearest integer, ties to the even one. *)
Definition py_round (q : Q) : Z :=
  let f := Qfloor q in
  match Qcompare (q - inject_Z f) (1 # 2) with
  | Lt => f
  | Gt => (f + 1)%Z
  | Eq => if Z.even f then f else (f + 1)%Z
  end.


(** "deviation = min(1.0, |angle - ideal| / max_deviation)" *)
Definition spec_deviation (t : TargetAngles) (angle : Q) : Q :=
  Qmin 1 (Qabs (angle - inject_Z (t_ideal t)) / inject_Z (max_deviation t)).

(** The arithmetic mean of a non-empty list. *)
Definition mean (l : list Q) : Q := fold_right Qplus 0 l / len l.


(** "the most recent n", earliest first. *)
Definition most_recent {A : Type} (n : nat) (l : list A) : list A :=
  skipn (List.length l - n) l.

(** The three bands of the feedback classifier as the specification
    draws them. *)
Inductive Band : Set := Good | TooExtended | TooFlexed.

Definition spec_band (t : TargetAngles) (angle : Q) : Band :=
  if Qgtb angle (inject_Z (t_max t - 10)) then TooExtended
  else if Qltb angle (inject_Z (t_min t + 10)) then TooFlexed
  else Good.

(** The raw angles of the frames that carry landmarks, in frame order. *)
Definition samples {A : Type} (frames : list (option A)) : list A :=
  flat_map (fun f => match f with Some a => [a] | None => [] end) frames.

(** The eleven raw angles of the smoothing example. *)
Definition eleven : list Q :=
  map inject_Z [10; 20; 30; 40; 50; 60; 70; 80; 90; 100; 110]%Z.

(** The wording each exercise branch of [generate_feedback] uses above
    [max - 10] and below [min + 10]. *)
Definition extended_wording (exercise_type : string) : string :=
  if String.eqb exercise_type "bicep curl" then "Extend more"
  else if String.eqb exercise_type "push-up" then "Keep body straight"
  else if String.eqb exercise_type "squat" then "Stand Up Straight"
  else if String.eqb exercise_type "shoulder press" then "Locked Out"
  else "No feedback available".

Definition flexed_wording (exercise_type : string) : string :=
  if String.eqb exercise_type "bicep curl" then "Curl Complete"
  else if String.eqb exercise_type "push-up" then "Good Form"
  else if String.eqb exercise_type "squat" then "Too Low"
  else if String.eqb exercise_type "shoulder press" then "Push Higher"
  else "No feedback available".

(** ** Smoothed sequences fed to the bicep-curl tracker *)

(** Repetitions counted over a sequence of smoothed angles by a fresh
    tracker configured for the bicep curl. *)
Definition bicep_reps (angles : list Q) : nat :=
  session_reps
    (track_reps "bicep curl" (target_angles bicep_curl) rep_init angles).

(** [l] keeps falling below [p] / keeps rising above [p]. *)
Fixpoint descending (p : Q) (l : list Q) : Prop :=
  match l with
  | [] => True
  | x :: l' => x < p /\ descending x l'
  end.

Fixpoint ascending (p : Q) (l : list Q) : Prop :=
  match l with
  | [] => True
  | x :: l' => p < x /\ ascending x l'
  end.

(** A sequence that descends from 160 to 35 and comes back up to 160. *)
Definition down_up (s : list Q) : Prop :=
  exists d u, s = 160 :: d ++ 35 :: u ++ [160]
              /\ descending 160 (d ++ [35])
              /\ ascending 35 (u ++ [160]).

(** One repetition with arbitrary jitter: an approach that starts above
    the reset threshold [max - 20] and stays at or above [min + 10]; a low
    part that never exceeds the reset threshold and dips below [min + 10];
    a recovery at or above [min + 10]. *)
Record Cycle : Set := mkCycle {
  approach : list Q;
  low : list Q;
  recovery : list Q
}.

Definition cycle_angles (c : Cycle) : list Q :=
  approach c ++ low c ++ recovery c.

Definition noisy_cycle (t : TargetAngles) (c : Cycle) : bool :=
  let lo := inject_Z (t_min t + 10) in
  let hi := inject_Z (t_max t - 20) in
  match approach c with a :: _ => Qgtb a hi | [] => false end
  && forallb (fun a => Qle_bool lo a) (approach c)
  && forallb (fun a => Qle_bool a hi) (low c)
  && existsb (fun a => Qltb a lo) (low c)
  && match recovery c with [] => false | _ :: _ => true end
  && forallb (fun a => Qle_bool lo a) (recovery c).

(** The moments of a cycle, as seen from the tracker's variables: the
    counter is [m] throughout [above] and [armed_low] and [m + 1] in
    [counted]. *)
Definition above (t : TargetAngles) (m : nat) (st : RepState) : Prop :=
  exists p, prev_angle st = Some p
            /\ inject_Z (t_min t + 10) <= p
            /\ session_reps st = m.

Definition armed_high (t : TargetAngles) (m : nat) (st : RepState) : Prop :=
  above t m st /\ rep_counted st = false.

Definition armed_low (t : TargetAngles) (m : nat) (st : RepState) : Prop :=
  exists p, prev_angle st = Some p
            /\ p < inject_Z (t_min t + 10)
            /\ direction st = dir_down
            /\ rep_counted st = false
            /\ session_reps st = m.

Definition counted (m : nat) (st : RepState) : Prop :=
  rep_counted st = true /\ session_reps st = m.

(** Where a cycle may begin: at the start of the session, or anywhere
    at or above [min + 10]. *)
Definition cycle_start (t : TargetAngles) (m : nat) (st : RepState) : Prop :=
  (st = rep_init /\ m = 0%nat) \/ above t m st.

(** A clean curl sampled every ten degrees, and one with jitter at both
    turning points. *)
Definition clean_curl : list Q :=
  map inject_Z [160; 150; 140; 130; 120; 110; 100; 90; 80; 70; 60; 50; 40;
                35; 40; 50; 60; 70; 80; 90; 100; 110; 120; 130; 140; 150;
                160]%Z.

Definition jittery_curl : Cycle :=
  mkCycle (map inject_Z [160; 158; 160; 155; 120; 80; 45; 41]%Z)
          (map inject_Z [38; 41; 37; 36; 35; 36; 35; 37; 39; 38]%Z)
          (map inject_Z [42; 41; 80; 120; 150; 158; 156; 160]%Z).

(** A profile outside the registry whose three target angles coincide. *)
Definition degenerate_profile : ExerciseData :=
  mkExercise "Degenerate" [11; 13; 15]%nat (mkTarget 90 90 90).

(** The session recorded from the given raw angles, one per frame, on the
    bicep curl. *)
Definition curl_session (raw : list Q) : Session :=
  process_frames "bicep curl" (target_angles bicep_curl) start_camera
                 (map Some raw).

(** "angle = |atan2(c.y-b.y, c.x-b.x) - atan2(a.y-b.y, a.x-b.x)| * 180/pi;
    if the result exceeds 180, replace it with 360 - result" *)
Definition spec_angle (a b c : Point) : R :=
  let result :=
    (Rabs (arctan2 (snd c - snd b) (fst c - fst b)
           - arctan2 (snd a - snd b) (fst a - fst b)) * (180 / PI))%R in
  if Rlt_dec 180 result then (360 - result)%R else result.

(** ** The two tests of an exercise branch, by exercise *)

(** The [elif] test of the branch of [exercise] (lines 918, 929, 940,
    951): the angle that sets [rep_counted] back to [False]. *)
Definition reset_fires (exercise : string) (t : TargetAngles) (a : Q) : bool :=
  if String.eqb exercise "bicep curl" then Qgtb a (inject_Z (t_max t - 20))
  else if String.eqb exercise "push-up" then Qltb a (inject_Z (t_min t + 20))
  else if String.eqb exercise "squat" then Qltb a (inject_Z (t_min t + 20))
  else if String.eqb exercise "shoulder press" then
    Qltb a (inject_Z (t_min t + 10))
  else false.

(** The test on [prev_angle] in the completion condition of the branch
    (lines 913, 924, 935, 946). *)
Definition near_completion (exercise : string) (t : TargetAngles) (p : Q)
  : bool :=
  if String.eqb exercise "bicep curl" then Qltb p (inject_Z (t_min t + 10))
  else if String.eqb exercise "push-up" then Qgtb p (inject_Z (t_max t - 20))
  else if String.eqb exercise "squat" then Qgtb p (inject_Z (t_max t - 20))
  else if String.eqb exercise "shoulder press" then
    Qgtb p (inject_Z (t_max t - 10))
  else false.

(** The reversal the branch looks for: stored direction, then current
    direction. *)
Definition reversal (exercise : string) (d cur : Direction) : bool :=
  if String.eqb exercise "bicep curl" then
    dir_eqb d dir_down && dir_eqb cur dir_up
  else if String.eqb exercise "push-up" then
    dir_eqb d dir_up && dir_eqb cur dir_down
  else if String.eqb exercise "squat" then
    dir_eqb d dir_up && dir_eqb cur dir_down
  else if String.eqb exercise "shoulder press" then
    dir_eqb d dir_down && dir_eqb cur dir_up
  else false.

(** Two clean shoulder presses, from 60 degrees up to 170 and back. *)
Definition two_presses : list Q :=
  map inject_Z [60; 90; 120; 150; 170; 150; 120; 90; 60;
                90; 120; 150; 170; 150; 120; 90; 60]%Z.

(** The current direction line 904 computes. *)
Definition current_direction (avg_angle prev : Q) : Direction :=
  if Qgtb avg_angle prev then dir_up else dir_down.

(** Some consecutive pair [y, z] of [l] moves the way the completion
    test of [exercise] wants ([z] above [y] for bicep curl and shoulder
    press, [z] not above [y] for push-up and squat) with [y] beyond the
    completion threshold. *)
Definition completion_move (exercise : string) (t : TargetAngles) (y z : Q)
  : bool :=
  near_completion exercise t y
  && (reversal exercise dir_down (current_direction z y)
      || reversal exercise dir_up (current_direction z y)).

Fixpoint has_completion_move (exercise : string) (t : TargetAngles)
    (l : list Q) : bool :=
  match l with
  | [] => false
  | y :: r =>
      match r with
      | [] => false
      | z :: _ =>
          completion_move exercise t y z || has_completion_move exercise t r
      end
  end.

(** [int(b)] for a boolean. *)
Definition b2n (b : bool) : nat := if b then 1%nat else 0%nat.

(** ** Session summary ([show_session_summary], lines 1170-1178 and 1204) *)

(** Lines 1173-1176 on a dictionary kept in insertion order: bump the
    count of [k], or insert it at the end with count 1. *)
Fixpoint dict_incr (d : list (string * nat)) (k : string)
  : list (string * nat) :=
  match d with
  | [] => [(k, 1%nat)]
  | (k', n) :: rest =>
      if String.eqb k k' then (k', S n) :: rest
      else (k', n) :: dict_incr rest k
  end.

(** Lines 1171-1176. *)
Definition feedback_counts (session_feedback : list string)
  : list (string * nat) :=
  fold_left dict_incr session_feedback [].

(** Python's [max(items, key=lambda x: x[1])] after its first item: a
    later item replaces the current one only when its count is strictly
    greater. *)
Fixpoint max_by_count (best : string * nat) (items : list (string * nat))
  : string * nat :=
  match items with
  | [] => best
  | it :: rest =>
      max_by_count (if (snd best <? snd it)%nat then it else best) rest
  end.

(** Line 1178; [None] is the [ValueError] of [max] on no items. *)
Definition most_common (session_feedback : list string)
  : option (string * nat) :=
  match feedback_counts session_feedback with
  | [] => None
  | it :: rest => Some (max_by_count it rest)
  end.

(** The distinct values of a list in the order of their first
    occurrence. *)
Definition add_key (acc : list string) (k : string) : list string :=
  if existsb (String.eqb k) acc then acc else acc ++ [k].

Definition first_occurrences (l : list string) : list string :=
  fold_left add_key l [].

(** The slice [l[::step]] for [step >= 1]: [skip] elements are still to be
    dropped before the next one is kept. *)
Fixpoint slice_from (skip step : nat) (l : list Q) : list Q :=
  match l with
  | [] => []
  | x :: rest =>
      match skip with
      | O => x :: slice_from (step - 1) step rest
      | S k => slice_from k step rest
      end
  end.

(** Line 1204: [session_angles[::max(1, len(session_angles) // 50)]]. *)
Definition sampled_angles (session_angles : list Q) : list Q :=
  slice_from 0 (Nat.max 1 (List.length session_angles / 50)) session_angles.

(** The histogram after the entries [pre]: distinct keys, every key of
    [pre] present, every count the number of occurrences in [pre]. *)
Definition histogram_of (pre : list string) (d : list (string * nat)) : Prop :=
  NoDup (map fst d)
  /\ (forall k, In k pre <-> In k (map fst d))
  /\ (forall k n, In (k, n) d -> n = count_occ string_dec pre k).


(** ** The activities file (lines 1075-1081, 1742-1750, 351-354) *)

(** [data/activities.json]: absent, present but not loadable, or holding
    a list of session records (their ["date"] left out, as in
    [SessionRecord]). *)
Inductive ActivitiesFile : Set :=
  | no_file
  | unreadable
  | stored (activities : list SessionRecord).

(** Lines 1742-1750: the stored list, or [[]] when the file is missing or
    loading it raises. *)
Definition load_recent_activities (f : ActivitiesFile) : list SessionRecord :=
  match f with
  | stored activities => activities
  | no_file | unreadable => []
  end.

(** The slice [l[-n:]]. *)
Definition py_tail {A : Type} (n : nat) (l : list A) : list A :=
  skipn (List.length l - n) l.

(** [save_session] with its effect on the file: nothing for a session
    without angles (line 1049), else the loaded list with the new record
    appended, cut to its last 20 entries (lines 1076-1081). *)
Definition store_session (exercise : ExerciseData) (duration : Z)
    (s : Session) (f : ActivitiesFile) : ActivitiesFile :=
  match save_session exercise duration s with
  | None => f
  | Some r => stored (py_tail 20 (load_recent_activities f ++ [r]))
  end.

(** Sessions saved one after the other. *)
Definition store_sessions (f : ActivitiesFile)
    (sessions : list (ExerciseData * Z * Session)) : ActivitiesFile :=
  fold_left (fun f x => let '(e, d, s) := x in store_session e d s f)
            sessions f.

(** The records [save_session] produces for a list of sessions. *)
Definition records_of (sessions : list (ExerciseData * Z * Session))
  : list SessionRecord :=
  flat_map (fun x => let '(e, d, s) := x in
                     match save_session e d s with
                     | Some r => [r]
                     | None => []
                     end)
           sessions.

(** Lines 351-354: the activities the dashboard lists,
    [recent_activities[:3]]. *)
Definition dashboard_activities (f : ActivitiesFile) : list SessionRecord :=
  firstn 3 (load_recent_activities f).


(** ** Colours (lines 186-213, 455-465, 965-966) *)

(** The three theme entries the scoring and feedback code reads. *)
Inductive ThemeKey : Set := key_success | key_warning | key_error.

(** [self.theme[...]] for these keys, in dark and in light mode. *)
Definition theme (dark_mode : bool) (k : ThemeKey) : string :=
  match k with
  | key_success => if dark_mode then "#27ae60" else "#2ecc71"
  | key_warning => if dark_mode then "#e67e22" else "#f39c12"
  | key_error => "#e74c3c"
  end.

(** Lines 459-465. *)
Definition performance_key (performance : Z) : ThemeKey :=
  if (80 <=? performance)%Z then key_success
  else if (60 <=? performance)%Z then key_warning
  else key_error.

Definition get_performance_color (dark_mode : bool) (performance : Z)
  : string :=
  theme dark_mode (performance_key performance).

(** Lines 455-456: colour and width of the filled part of the bar of an
    activity, [reqwidth] being the requested width of its background. *)
Definition performance_bar (dark_mode : bool) (reqwidth performance : Z)
  : string * Z :=
  let performance := Z.min 100 (Z.max 0 performance) in
  (get_performance_color dark_mode performance,
   Z.quot (reqwidth * performance) 100).

(** Lines 965-966. *)
Definition feedback_key (feedback : string) : ThemeKey :=
  if str_in "Good" feedback then key_success
  else if str_in "Complete" feedback then key_warning
  else key_error.

Definition feedback_color (dark_mode : bool) (feedback : string) : string :=
  theme dark_mode (feedback_key feedback).

(** ** Points moved about the plane *)

(** The point [k * p + v]: [p] scaled by [k] about the origin, then
    shifted by [v]. *)
Definition scale_shift (k : R) (v p : Point) : Point :=
  (k * fst p + fst v, k * snd p + snd v)%R.


(** ** Progress tracker ([show_progress], [change_progress_tab]) *)

(** Python's order on strings, strict. *)
Definition string_lt (a b : string) : Prop := String.compare a b = Lt.

(** [sorted(list(set(l)))]: the distinct values of [l] in ascending
    order, built by insertion. *)
Fixpoint insert_sorted (k : string) (l : list string) : list string :=
  match l with
  | [] => [k]
  | x :: rest =>
      match String.compare k x with
      | Lt => k :: l
      | Eq => l
      | Gt => x :: insert_sorted k rest
      end
  end.

Definition sorted_set (l : list string) : list string :=
  fold_right insert_sorted [] l.

(** Line 1262: the tabs of the progress page. *)
Definition progress_tabs (activities : list SessionRecord) : list string :=
  sorted_set (map rec_exercise activities).

(** Line 1291. *)
Definition exercise_activities (activities : list SessionRecord)
    (exercise : string) : list SessionRecord :=
  filter (fun a => String.eqb (rec_exercise a) exercise) activities.

(** Python's [sum] on integers. *)
Definition py_sum_int (l : list Z) : Z := fold_left Z.add l 0%Z.

(** Line 1320. *)
Definition total_time (acts : list SessionRecord) : Z :=
  py_sum_int (map rec_duration acts).


(** The number of sessions each tab lists, added up. *)
Definition sessions_under (activities : list SessionRecord)
    (tabs : list string) : nat :=
  fold_right Nat.add 0%nat
    (map (fun k => List.length (exercise_activities activities k)) tabs).

(** ** binary64 ([np.float64] and Python's [float]) *)

(** IEEE 754 double precision, without NaN payloads.  Every operation
    returns the exact result rounded to the nearest representable value,
    ties to even. *)
Definition float64 : Set := spec_float.

Definition prec : Z := 53%Z.
Definition emax : Z := 1024%Z.

(** A Python int that meets a float in an arithmetic operation is
    converted first. *)
Definition float_of_int (z : Z) : float64 :=
  binary_normalize prec emax z 0 false.

Definition fadd : float64 -> float64 -> float64 := SFadd prec emax.
Definition fsub : float64 -> float64 -> float64 := SFsub prec emax.
Definition fmul : float64 -> float64 -> float64 := SFmul prec emax.
Definition fdiv : float64 -> float64 -> float64 := SFdiv prec emax.
Definition fabs : float64 -> float64 := SFabs.
Definition fltb : float64 -> float64 -> bool := SFltb.

(** The rational a finite binary64 value stands for. *)
Definition Q_of_float (x : float64) : Q :=
  match x with
  | S754_finite s m e => inject_Z (cond_Zopp s (Zpos m)) * Qpower 2 e
  | _ => 0
  end.

(** Python's [int] on a float: truncation toward zero; [None] is the
    [ValueError] on nan and the [OverflowError] on an infinity. *)
Definition int_of_float (x : float64) : option Z :=
  match x with
  | S754_zero _ => Some 0%Z
  | S754_finite _ _ _ => Some (py_int (Q_of_float x))
  | S754_infinity _ => None
  | S754_nan => None
  end.

(** [sum] over floats: the int 0 it starts from is converted by the
    first addition. *)
Definition py_sum64 (l : list float64) : float64 :=
  fold_left fadd l (float_of_int 0).

(** Line 884, [sum(self.angle_buffer) / len(self.angle_buffer)], on a
    buffer that holds at least one angle. *)
Definition average64 (buf : list float64) : float64 :=
  fdiv (py_sum64 buf) (float_of_int (Z.of_nat (List.length buf))).

(** Lines 881-885 of the frame loop: the two variables the smoothing
    touches. *)
Record Smoothing : Set := mkSmoothing {
  angle_buffer64 : list float64;
  session_angles64 : list float64
}.

Definition smooth_landmarks (s : Smoothing) (angle : float64) : Smoothing :=
  let buf := deque_append maxlen (angle_buffer64 s) angle in
  let avg_angle := average64 buf in
  mkSmoothing buf (session_angles64 s ++ [avg_angle]).

Definition smooth_frame (s : Smoothing) (frame : option float64)
  : Smoothing :=
  match frame with
  | Some angle => smooth_landmarks s angle
  | None => s
  end.

Definition smooth_frames (frames : list (option float64)) : Smoothing :=
  fold_left smooth_frame frames (mkSmoothing [] []).

(** [min(1.0, v)]: [v] when [v < 1.0], else [1.0]. *)
Definition min_one64 (v : float64) : float64 :=
  if fltb v (float_of_int 1) then v else float_of_int 1.

(** Lines 1057-1060. *)
Definition deviations64 (t : TargetAngles) (angles : list float64)
  : list float64 :=
  map (fun angle =>
         min_one64 (fdiv (fabs (fsub angle (float_of_int (t_ideal t))))
                         (float_of_int (max_deviation t))))
      angles.

(** Lines 1062-1063. *)
Definition performance_score64 (t : TargetAngles) (angles : list float64)
  : option Z :=
  let avg_deviation := average64 (deviations64 t angles) in
  int_of_float (fmul (fsub (float_of_int 1) avg_deviation)
                     (float_of_int 100)).

(** The eleven raw angles of the smoothing example, as floats. *)
Definition eleven64 : list float64 :=
  map float_of_int [10; 20; 30; 40; 50; 60; 70; 80; 90; 100; 110]%Z.

(** 168.6900675259798, the binary64 value 5935254103524269 * 2^-45. *)
Definition angle_168_69 : float64 :=
  S754_finite false 5935254103524269 (-45).

(** ** [calculate_angle] on integer pixel coordinates *)

(** The landmarks are pairs of Python ints (line 854); [np.array] turns a
    pair whose entries fit 64 bits into an int64 array. *)
Definition Pixel : Type := (Z * Z)%type.

Definition fits_int64 (z : Z) : Prop := (- 2 ^ 63 <= z < 2 ^ 63)%Z.

Definition int64_point (p : Pixel) : Prop :=
  fits_int64 (fst p) /\ fits_int64 (snd p).

(** int64 arithmetic wraps around modulo 2^64. *)
Definition int64_wrap (z : Z) : Z := ((z + 2 ^ 63) mod 2 ^ 64 - 2 ^ 63)%Z.

Definition int64_sub (x y : Z) : Z := int64_wrap (x - y).

(** Lines 1752-1760 on three int64 arrays: the differences are int64,
    [np.arctan2] and what follows are floating point, idealised as
    reals. *)
Definition calculate_angle_int64 (a b c : Pixel) : R :=
  let radians :=
    (arctan2 (IZR (int64_sub (snd c) (snd b)))
             (IZR (int64_sub (fst c) (fst b)))
     - arctan2 (IZR (int64_sub (snd a) (snd b)))
               (IZR (int64_sub (fst a) (fst b))))%R in
  let angle := Rabs (radians * 180 / PI) in
  if Rlt_dec 180 angle then (360 - angle)%R else angle.

(** The pixel as a point of the plane. *)
Definition point_of (p : Pixel) : Point := (IZR (fst p), IZR (snd p)).

(** No coordinate difference [p - b] leaves the int64 range. *)
Definition no_overflow (p b : Pixel) : Prop :=
  fits_int64 (fst p - fst b) /\ fits_int64 (snd p - snd b).



(** Coordinates far enough from the ends of int64 for the difference of
    two of them to fit. *)
Definition small_pixel (p : Pixel) : Prop :=
  (Z.abs (fst p) < 2 ^ 62)%Z /\ (Z.abs (snd p) < 2 ^ 62)%Z.

(* ================================================================== *)
(** * Properties *)

(** ** Comparisons *)

Lemma Qltb_lt (x y : Q) : Qltb x y = true <-> x < y.
Proof.
  unfold Qltb. rewrite negb_true_iff, <- not_true_iff_false, Qle_bool_iff.
  split; [apply Qnot_le_lt | apply Qlt_not_le].
Qed.

Lemma Qltb_ge (x y : Q) : Qltb x y = false <-> y <= x.
Proof.
  unfold Qltb. rewrite negb_false_iff. apply Qle_bool_iff.
Qed.

Lemma Qgtb_gt (x y : Q) : Qgtb x y = true <-> y < x.
Proof. apply Qltb_lt. Qed.

Lemma Qgtb_le (x y : Q) : Qgtb x y = false <-> x <= y.
Proof. apply Qltb_ge. Qed.

(** ** The smoothing buffer *)

Section Smoothing.

Variable current_exercise : string.
Variable t : TargetAngles.

Let run := process_frames current_exercise t.

Lemma tl_skipn {A : Type} (k : nat) (l : list A) :
  tl (skipn k l) = skipn (S k) l.
Proof.
  revert l; induction k as [|k IH]; intros [|x l]; simpl; auto.
Qed.

(** Appending to the window of [l] gives the window of [l ++ [x]]. *)
Lemma deque_append_recent {A : Type} (l : list A) (x : A) :
  deque_append maxlen (most_recent maxlen l) x
  = most_recent maxlen (l ++ [x]).
Proof.
  unfold deque_append, most_recent, maxlen.
  rewrite length_skipn, length_app. simpl List.length.
  destruct (Nat.ltb_spec (List.length l - (List.length l - 10)) 10)
    as [Hlt|Hge].
  - assert (Hl : (List.length l < 10)%nat) by lia.
    replace (List.length l - 10)%nat with 0%nat by lia.
    replace (List.length l + 1 - 10)%nat with 0%nat by lia.
    reflexivity.
  - assert (Hl : (10 <= List.length l)%nat) by lia.
    rewrite skipn_app.
    replace (List.length l + 1 - 10 - List.length l)%nat with 0%nat by lia.
    replace (List.length l + 1 - 10)%nat
      with (S (List.length l - 10)) by lia.
    rewrite <- tl_skipn. simpl skipn.
    destruct (skipn (List.length l - 10) l) eqn:E; [|reflexivity].
    apply (f_equal (@List.length A)) in E. rewrite length_skipn in E.
    simpl in E. lia.
Qed.

Lemma run_snoc (s : Session) (frames : list (option Q)) (f : option Q) :
  run s (frames ++ [f]) = process_frame current_exercise t (run s frames) f.
Proof. unfold run, process_frames. now rewrite fold_left_app. Qed.

Lemma samples_snoc {A : Type} (frames : list (option A)) (f : option A) :
  samples (frames ++ [f])
  = samples frames ++ match f with Some a => [a] | None => [] end.
Proof. unfold samples. rewrite flat_map_app. simpl. now rewrite app_nil_r. Qed.

Lemma angle_buffer_recent (frames : list (option Q)) :
  angle_buffer (run start_camera frames)
  = most_recent maxlen (samples frames).
Proof.
  induction frames as [|f frames IH] using rev_ind; [reflexivity|].
  rewrite run_snoc, samples_snoc. destruct f as [a|]; simpl.
  - rewrite IH. apply deque_append_recent.
  - now rewrite app_nil_r.
Qed.

Lemma most_recent_length {A : Type} (n : nat) (l : list A) :
  List.length (most_recent n l) = Nat.min n (List.length l).
Proof. unfold most_recent. rewrite length_skipn. lia. Qed.

Lemma session_angles_windows (frames : list (option Q)) :
  session_angles (run start_camera frames)
  = map (fun k => average (most_recent maxlen (firstn k (samples frames))))
        (seq 1 (List.length (samples frames))).
Proof.
  induction frames as [|f frames IH] using rev_ind; [reflexivity|].
  rewrite run_snoc, samples_snoc. destruct f as [a|]; simpl.
  - rewrite length_app, Nat.add_comm. simpl List.length.
    rewrite seq_S, map_app. cbn [map].
    rewrite angle_buffer_recent, deque_append_recent, IH. f_equal.
    + apply map_ext_in. intros k Hk. apply in_seq in Hk.
      rewrite firstn_app.
      replace (k - List.length (samples frames))%nat with 0%nat by lia.
      simpl. now rewrite app_nil_r.
    + rewrite firstn_all2; [reflexivity|]. rewrite length_app; simpl; lia.
  - rewrite app_nil_r. exact IH.
Qed.

End Smoothing.

Lemma fold_left_Qplus_acc (l : list Q) (a : Q) :
  fold_left Qplus l a == a + fold_right Qplus 0 l.
Proof.
  revert a; induction l as [|x l IH]; intro a; simpl.
  - ring.
  - rewrite IH. ring.
Qed.

Lemma py_sum_fold_right (l : list Q) : py_sum l == fold_right Qplus 0 l.
Proof. unfold py_sum. rewrite fold_left_Qplus_acc. ring. Qed.

Lemma average_mean (l : list Q) : average l == mean l.
Proof. unfold average, mean. now rewrite py_sum_fold_right. Qed.

(** ** The smoothing buffer in binary64 *)

Lemma smooth_frames_snoc (frames : list (option float64))
    (f : option float64) :
  smooth_frames (frames ++ [f]) = smooth_frame (smooth_frames frames) f.
Proof. unfold smooth_frames. now rewrite fold_left_app. Qed.

Lemma angle_buffer64_recent (frames : list (option float64)) :
  angle_buffer64 (smooth_frames frames)
  = most_recent maxlen (samples frames).
Proof.
  induction frames as [|f frames IH] using rev_ind; [reflexivity|].
  rewrite smooth_frames_snoc, samples_snoc. destruct f as [a|]; simpl.
  - rewrite IH. apply deque_append_recent.
  - now rewrite app_nil_r.
Qed.

Lemma session_angles64_windows (frames : list (option float64)) :
  session_angles64 (smooth_frames frames)
  = map (fun k => average64 (most_recent maxlen (firstn k (samples frames))))
        (seq 1 (List.length (samples frames))).
Proof.
  induction frames as [|f frames IH] using rev_ind; [reflexivity|].
  rewrite smooth_frames_snoc, samples_snoc. destruct f as [a|]; simpl.
  - rewrite length_app, Nat.add_comm. simpl List.length.
    rewrite seq_S, map_app. cbn [map].
    rewrite angle_buffer64_recent, deque_append_recent, IH. f_equal.
    + apply map_ext_in. intros k Hk. apply in_seq in Hk.
      rewrite firstn_app.
      replace (k - List.length (samples frames))%nat with 0%nat by lia.
      simpl. now rewrite app_nil_r.
    + rewrite firstn_all2; [reflexivity|]. rewrite length_app; simpl; lia.
  - rewrite app_nil_r. exact IH.
Qed.

(** C7, as the code has it.  The buffer holds the (at most ten) most
    recent raw angles in arrival order, the oldest dropped first; every
    smoothed angle the frame loop records is [sum(buffer) / len(buffer)]
    of the samples held right after its push, also while fewer than ten
    are held, the samples added from the left and the sum divided by
    their number in binary64; and after the eleven pushes 10, 20, ..., 110
    the buffer is 20, ..., 110 and its average is exactly their mean,
    65. *)
Theorem smoothing_buffer_binary64 :
  (forall frames : list (option float64),
      let s := smooth_frames frames in
      angle_buffer64 s = most_recent maxlen (samples frames)
      /\ (List.length (angle_buffer64 s) <= 10)%nat
      /\ session_angles64 s
         = map (fun k =>
                  average64 (most_recent maxlen (firstn k (samples frames))))
               (seq 1 (List.length (samples frames))))
  /\ (let s := smooth_frames (map Some eleven64) in
      angle_buffer64 s = tl eleven64
      /\ average64 (angle_buffer64 s) = float_of_int 65
      /\ Q_of_float (average64 (angle_buffer64 s))
         == mean (map Q_of_float (tl eleven64))
      /\ last (session_angles64 s) (float_of_int 0) = float_of_int 65).
Proof.
  split.
  - intros frames s. subst s. split; [|split].
    + apply angle_buffer64_recent.
    + rewrite angle_buffer64_recent, most_recent_length. unfold maxlen. lia.
    + apply session_angles64_windows.
  - cbn zeta. split; [|split; [|split]]; vm_compute; reflexivity.
Qed.

(** Ten frames at 168.6900675259798: the buffer holds ten copies of that
    value, whose arithmetic mean is the value itself, and the smoothed
    angle recorded for the tenth frame is the next binary64 value above
    it, 168.69006752597983. *)
Lemma smoothed_angle_not_the_mean :
  let s := smooth_frames (repeat (Some angle_168_69) 10) in
  valid_binary prec emax angle_168_69 = true
  /\ angle_buffer64 s = repeat angle_168_69 10
  /\ mean (map Q_of_float (angle_buffer64 s)) == Q_of_float angle_168_69
  /\ last (session_angles64 s) (float_of_int 0)
     = S754_finite false 5935254103524270 (-45)
  /\ ~ Q_of_float (last (session_angles64 s) (float_of_int 0))
       == mean (map Q_of_float (angle_buffer64 s)).
Proof.
  cbn zeta. split; [reflexivity|]. split; [reflexivity|].
  split; [vm_compute; reflexivity|]. split; [vm_compute; reflexivity|].
  intros H. vm_compute in H. discriminate H.
Qed.

(** ** The feedback classifier *)

Lemma exercise_data_cases (key : string) (e : ExerciseData) :
  exercise_data key = Some e ->
  (key = "bicep curl" /\ e = bicep_curl)
  \/ (key = "push-up" /\ e = push_up)
  \/ (key = "squat" /\ e = squat)
  \/ (key = "shoulder press" /\ e = shoulder_press).
Proof.
  unfold exercise_data, exercise_table, dict_get.
  destruct (String.eqb_spec key "bicep curl") as [->|_];
    [intros [= <-]; auto|].
  destruct (String.eqb_spec key "push-up") as [->|_];
    [intros [= <-]; auto|].
  destruct (String.eqb_spec key "squat") as [->|_];
    [intros [= <-]; auto|].
  destruct (String.eqb_spec key "shoulder press") as [->|_];
    [intros [= <-]; auto 6|].
  discriminate.
Qed.

(** Every registered exercise lists the three keypoints the frame loop
    indexes (the test of line 875 always holds), and its target angles
    are ordered. *)
Lemma registry_entries (key : string) (e : ExerciseData) :
  exercise_data key = Some e ->
  (3 <= List.length (keypoints e))%nat
  /\ (t_min (target_angles e) < t_ideal (target_angles e)
      < t_max (target_angles e))%Z
  /\ (0 < max_deviation (target_angles e))%Z.
Proof.
  intros He.
  destruct (exercise_data_cases _ _ He)
    as [[-> ->]|[[-> ->]|[[-> ->]|[-> ->]]]]; cbn; lia.
Qed.

(** Decide every threshold test in the goal and turn the outcomes into
    order facts. *)
Ltac threshold_cases :=
  repeat match goal with
    | |- context [Qgtb ?a ?b] =>
        let E := fresh "E" in
        destruct (Qgtb a b) eqn:E;
        [apply Qgtb_gt in E | apply Qgtb_le in E]
    | |- context [Qltb ?a ?b] =>
        let E := fresh "E" in
        destruct (Qltb a b) eqn:E;
        [apply Qltb_lt in E | apply Qltb_ge in E]
    end.

(** C1, as the code has it. For bicep curl, squat and shoulder press an angle in
    [min+10, max-10], both ends included, gets the exercise's "Good"
    message, an angle above max-10 its extended wording and an angle below
    min+10 its flexed wording, neither of them a "Good" message.  For
    push-up the middle band reads "Adjust your posture", and it is the
    band below min+10 that reads "Good Form".  On the bicep-curl profile
    95 is Good, 155 extended and 35 complete. *)
Theorem feedback_bands (key : string) (e : ExerciseData) (angle : Q) :
  exercise_data key = Some e ->
  let t := target_angles e in
  let fb := generate_feedback angle t key in
  let lo := inject_Z (t_min t + 10) in
  let hi := inject_Z (t_max t - 10) in
  (key <> "push-up" ->
     (lo <= angle <= hi -> is_good fb = true)
     /\ (hi < angle -> fb = extended_wording key /\ is_good fb = false)
     /\ (angle < lo -> fb = flexed_wording key /\ is_good fb = false))
  /\ (key = "push-up" ->
        (lo <= angle <= hi -> fb = "Adjust your posture")
        /\ (hi < angle -> fb = "Keep body straight")
        /\ (angle < lo -> fb = "Good Form"))
  /\ generate_feedback 95 (target_angles bicep_curl) "bicep curl" = "Good Form"
  /\ generate_feedback 155 (target_angles bicep_curl) "bicep curl"
     = "Extend more"
  /\ generate_feedback 35 (target_angles bicep_curl) "bicep curl"
     = "Curl Complete".
Proof.
  intros He t fb lo hi. subst t fb lo hi.
  assert (Hc :
    generate_feedback 95 (target_angles bicep_curl) "bicep curl" = "Good Form"
    /\ generate_feedback 155 (target_angles bicep_curl) "bicep curl"
       = "Extend more"
    /\ generate_feedback 35 (target_angles bicep_curl) "bicep curl"
       = "Curl Complete") by (split; [|split]; reflexivity).
  destruct (exercise_data_cases _ _ He)
    as [[-> ->]|[[-> ->]|[[-> ->]|[-> ->]]]];
    (split; [intros Hk|split; [intros Hk|exact Hc]]);
    try discriminate Hk; try (exfalso; apply Hk; reflexivity);
    unfold generate_feedback; cbn -[Qgtb Qltb Qle Qlt];
    (split; [intros [H1 H2]|split; intros H1]);
    threshold_cases; try reflexivity; try (split; reflexivity).
  all: exfalso; unfold inject_Z in *; Lqa.lra.
Qed.

(** The push-up profile at 120 degrees: inside [min+10, max-10] and not a
    "Good" message. *)
Lemma feedback_push_up_mid_band_not_good :
  let t := target_angles push_up in
  exercise_data "push-up" = Some push_up
  /\ inject_Z (t_min t + 10) <= 120 <= inject_Z (t_max t - 10)
  /\ generate_feedback 120 t "push-up" = "Adjust your posture"
  /\ is_good (generate_feedback 120 t "push-up") = false.
Proof.
  cbn. repeat split; try reflexivity; unfold Qle; simpl; lia.
Qed.

Lemma feedback_bands_witness :
  is_good (generate_feedback 95 (target_angles bicep_curl) "bicep curl")
  = true.
Proof.
  destruct (feedback_bands "bicep curl" bicep_curl 95 eq_refl) as [H _].
  destruct (H ltac:(discriminate)) as [Hgood _].
  apply Hgood. split; unfold Qle; simpl; lia.
Defined.

(** ** The frame loop drives the tracker with its smoothed angles *)

Section FrameLoop.

Variable current_exercise : string.
Variable t : TargetAngles.

Lemma track_reps_snoc (st : RepState) (angles : list Q) (a : Q) :
  track_reps current_exercise t st (angles ++ [a])
  = track_rep current_exercise t (track_reps current_exercise t st angles) a.
Proof. unfold track_reps. now rewrite fold_left_app. Qed.

(** The tracker state of a session is the tracker run over the smoothed
    angles the session has recorded. *)
Lemma rep_tracks_session_angles (frames : list (option Q)) :
  let s := process_frames current_exercise t start_camera frames in
  rep s = track_reps current_exercise t rep_init (session_angles s).
Proof.
  induction frames as [|f frames IH] using rev_ind; [reflexivity|].
  cbn zeta in *. rewrite run_snoc. destruct f as [a|]; [|exact IH].
  cbn [process_frame process_landmarks rep session_angles].
  now rewrite track_reps_snoc, <- IH.
Qed.

Lemma session_angles_length (frames : list (option Q)) :
  List.length
    (session_angles (process_frames current_exercise t start_camera frames))
  = List.length (samples frames).
Proof. rewrite session_angles_windows. now rewrite length_map, length_seq. Qed.

(** A stored direction of ["none"] satisfies no completion test. *)
Lemma detect_rep_dir_none (cur : Direction) (prev a : Q) (rc : bool)
    (reps : nat) :
  snd (detect_rep current_exercise t dir_none cur prev a rc reps) = reps.
Proof.
  unfold detect_rep.
  repeat match goal with
    | |- context [String.eqb ?x ?y] => destruct (String.eqb x y)
    end;
    cbn [dir_eqb andb]; unfold hysteresis;
    repeat match goal with
      | |- context [if ?c then _ else _] => destruct c
      end; reflexivity.
Qed.

Lemma track_first_two (angles : list Q) :
  (List.length angles <= 2)%nat ->
  session_reps (track_reps current_exercise t rep_init angles) = 0%nat.
Proof.
  destruct angles as [|a [|b [|c l]]]; simpl List.length; intros Hlen;
    try reflexivity; [|lia].
  unfold track_reps; cbn [fold_left]. unfold track_rep at 2.
  cbn [prev_angle rep_init]. unfold track_rep.
  cbn [prev_angle direction rep_counted session_reps].
  match goal with
  | |- context [detect_rep ?e ?t0 dir_none ?c ?p ?x ?r ?n] =>
      pose proof (detect_rep_dir_none c p x r n) as Hn;
      destruct (detect_rep e t0 dir_none c p x r n) as [rc' n']
  end.
  exact Hn.
Qed.

End FrameLoop.

(** C10. Whatever the exercise, its target angles and the angle values,
    a session with at most two frames that carry landmarks (frames
    without landmarks may be interleaved freely) has registered no
    repetition; after the first such frame the stored direction is the
    sentinel ["none"] and the previous angle is that frame's smoothed
    angle. *)
Theorem no_rep_in_first_two_valid_frames
    (ex : string) (t : TargetAngles) (frames : list (option Q)) :
  (List.length (samples frames) <= 2)%nat ->
  let s := process_frames ex t start_camera frames in
  session_reps (rep s) = 0%nat
  /\ (forall a, samples frames = [a] ->
        direction (rep s) = dir_none /\ prev_angle (rep s) = Some (average [a])).
Proof.
  intros Hlen s. subst s. split.
  - rewrite rep_tracks_session_angles. apply track_first_two.
    now rewrite session_angles_length.
  - intros a Ha. rewrite rep_tracks_session_angles, session_angles_windows, Ha.
    split; reflexivity.
Qed.

Lemma no_rep_in_first_two_valid_frames_witness :
  session_reps
    (rep (process_frames "bicep curl" (target_angles bicep_curl) start_camera
            [Some 35; None; Some 160]))
  = 0%nat.
Proof.
  apply (no_rep_in_first_two_valid_frames "bicep curl"
           (target_angles bicep_curl) [Some 35; None; Some 160]).
  simpl. lia.
Defined.

(** ** Bicep-curl repetition counting *)

Section BicepCurl.

Variable t : TargetAngles.

Let lo : Q := inject_Z (t_min t + 10).
Let hi : Q := inject_Z (t_max t - 20).
Let step := track_rep "bicep curl" t.
Let run := track_reps "bicep curl" t.

(** Expose one step on a state whose fields are known, decide its
    tests, and leave order facts about the two thresholds. *)
Ltac step_cases :=
  unfold step, track_rep, detect_rep, hysteresis;
  cbn [String.eqb Ascii.eqb Bool.eqb prev_angle direction rep_counted
       session_reps dir_eqb andb negb];
  fold lo hi; clearbody lo hi;
  threshold_cases;
  cbn [dir_eqb andb negb prev_angle direction rep_counted session_reps].

Lemma step_above (m : nat) (st : RepState) (a : Q) :
  above t m st -> lo <= a ->
  above t m (step st a)
  /\ (hi < a \/ rep_counted st = false -> rep_counted (step st a) = false).
Proof.
  destruct st as [[p|] d rc n]; intros (p' & Hp & Hlo & Hn) Ha;
    [|discriminate].
  injection Hp as <-. cbn in Hn. subst n. fold lo in Hlo.
  unfold above. fold lo. destruct d, rc; step_cases;
    (split;
     [eexists; repeat split;
      first [reflexivity | assumption | exfalso; Lqa.lra]|]);
    intros [H|H]; first [reflexivity | discriminate | exfalso; Lqa.lra].
Qed.

Lemma step_init (a : Q) : lo <= a -> armed_high t 0 (step rep_init a).
Proof.
  intros Ha. split; [|reflexivity]. exists a. now repeat split.
Qed.

Lemma step_armed_high (m : nat) (st : RepState) (a : Q) :
  armed_high t m st ->
  (lo <= a -> armed_high t m (step st a))
  /\ (a < lo -> armed_low t m (step st a)).
Proof.
  intros [Hab Hrc]. split.
  - intros Ha. destruct (step_above m st a Hab Ha) as [H1 H2].
    split; auto.
  - destruct st as [[p|] d rc n]; destruct Hab as (p' & Hp & Hlo & Hn);
      [|discriminate].
    injection Hp as <-. cbn in Hn, Hrc. subst n rc. fold lo in Hlo.
    intros Ha. unfold armed_low. fold lo. destruct d; step_cases;
      first [ exfalso; Lqa.lra
            | eexists; repeat split; first [reflexivity | assumption] ].
Qed.

Lemma step_armed_low (m : nat) (st : RepState) (a : Q) :
  armed_low t m st -> a <= hi ->
  armed_low t m (step st a) \/ counted (S m) (step st a).
Proof.
  destruct st as [[p|] d rc n];
    intros (p' & Hp & Hlo & Hd & Hrc & Hn) Ha; [|discriminate].
  injection Hp as <-. cbn in Hd, Hrc, Hn. subst d rc n. fold lo in Hlo.
  unfold armed_low, counted. fold lo. step_cases;
    first [ exfalso; Lqa.lra
          | right; split; reflexivity
          | left; eexists; repeat split;
            first [reflexivity | assumption | Lqa.lra] ].
Qed.

Lemma step_armed_low_exit (m : nat) (st : RepState) (c : Q) :
  armed_low t m st -> lo <= c -> above t (S m) (step st c).
Proof.
  destruct st as [[p|] d rc n];
    intros (p' & Hp & Hlo & Hd & Hrc & Hn) Hc; [|discriminate].
  injection Hp as <-. cbn in Hd, Hrc, Hn. subst d rc n. fold lo in Hlo.
  unfold above. fold lo. step_cases;
    first [ exfalso; Lqa.lra
          | eexists; repeat split; first [reflexivity | assumption] ].
Qed.

Lemma step_counted (m : nat) (st : RepState) (a : Q) :
  counted m st -> a <= hi -> counted m (step st a).
Proof.
  destruct st as [[p|] d rc n]; intros [Hrc Hn] Ha;
    cbn in Hrc, Hn; subst rc n; unfold counted;
    [destruct d; step_cases|];
    first [ exfalso; Lqa.lra | split; reflexivity ].
Qed.

Lemma step_counted_exit (m : nat) (st : RepState) (c : Q) :
  counted m st -> lo <= c -> above t m (step st c).
Proof.
  destruct st as [[p|] d rc n]; intros [Hrc Hn] Hc;
    cbn in Hrc, Hn; subst rc n; unfold above; fold lo;
    [destruct d; step_cases|];
    eexists; repeat split; first [reflexivity | assumption].
Qed.

(** A step either leaves the counter alone or counts once and disarms. *)
Lemma step_counts (st : RepState) (a : Q) :
  session_reps (step st a) = session_reps st
  \/ counted (S (session_reps st)) (step st a).
Proof.
  destruct st as [[p|] d rc n]; [|left; reflexivity].
  unfold counted. destruct d, rc; step_cases;
    first [ left; reflexivity | right; split; reflexivity ].
Qed.

Lemma run_cons (st : RepState) (a : Q) (l : list Q) :
  run st (a :: l) = run (step st a) l.
Proof. reflexivity. Qed.

Lemma run_app (st : RepState) (l1 l2 : list Q) :
  run st (l1 ++ l2) = run (run st l1) l2.
Proof. apply fold_left_app. Qed.

Lemma run_above (l : list Q) (m : nat) (st : RepState) :
  above t m st ->
  forallb (fun a => Qle_bool lo a) l = true ->
  above t m (run st l)
  /\ (rep_counted st = false -> rep_counted (run st l) = false).
Proof.
  revert st; induction l as [|a l IH]; intros st Hab Hl; [now split|].
  cbn [forallb] in Hl. apply andb_true_iff in Hl as [Ha Hl].
  apply Qle_bool_iff in Ha. rewrite run_cons.
  destruct (step_above m st a Hab Ha) as [H1 H2].
  destruct (IH _ H1 Hl) as [H3 H4]. split; auto.
Qed.

Lemma run_counted (l : list Q) (m : nat) (st : RepState) :
  counted m st ->
  forallb (fun a => Qle_bool a hi) l = true ->
  counted m (run st l).
Proof.
  revert st; induction l as [|a l IH]; intros st Hc Hl; [exact Hc|].
  cbn [forallb] in Hl. apply andb_true_iff in Hl as [Ha Hl].
  apply Qle_bool_iff in Ha. rewrite run_cons.
  apply IH; [|exact Hl]. now apply step_counted.
Qed.

(** The low part of a cycle followed by the first angle of the
    recovery: exactly one count. *)
Lemma run_low (B : list Q) (m : nat) (c : Q) (st : RepState) :
  forallb (fun a => Qle_bool a hi) B = true ->
  lo <= c ->
  armed_low t m st
  \/ counted (S m) st
  \/ (armed_high t m st /\ existsb (fun a => Qltb a lo) B = true) ->
  above t (S m) (run st (B ++ [c])).
Proof.
  intros HB Hc. revert st HB.
  induction B as [|b B IH]; intros st HB Hst.
  - cbn [app]. rewrite run_cons. cbn [run track_reps fold_left].
    destruct Hst as [H|[H|[_ H]]]; [| |discriminate].
    + now apply step_armed_low_exit.
    + now apply step_counted_exit.
  - cbn [forallb] in HB. apply andb_true_iff in HB as [Hb HB].
    apply Qle_bool_iff in Hb. cbn [app]. rewrite run_cons.
    apply IH; [exact HB|]. destruct Hst as [H|[H|[H Hex]]].
    + destruct (step_armed_low m st b H Hb); auto.
    + right; left. now apply step_counted.
    + cbn [existsb] in Hex. destruct (step_armed_high m st b H) as [H1 H2].
      destruct (Qltb b lo) eqn:E.
      * left. apply H2. now apply Qltb_lt.
      * right; right. split; [|exact Hex]. apply H1. now apply Qltb_ge.
Qed.

Lemma cycle_counts_once (c : Cycle) (m : nat) (st : RepState) :
  cycle_start t m st ->
  noisy_cycle t c = true ->
  above t (S m) (run st (cycle_angles c)).
Proof.
  intros Hst Hc. unfold noisy_cycle in Hc. fold lo hi in Hc.
  repeat (apply andb_true_iff in Hc as [Hc ?]).
  destruct c as [[|a A] B [|r R]]; cbn [approach low recovery] in *;
    try discriminate.
  apply Qgtb_gt in Hc.
  match goal with
  | H : forallb _ (a :: A) = true |- _ =>
      cbn [forallb] in H; apply andb_true_iff in H as [Ha HA];
      apply Qle_bool_iff in Ha
  end.
  match goal with
  | H : forallb _ (r :: R) = true |- _ =>
      cbn [forallb] in H; apply andb_true_iff in H as [Hr HR];
      apply Qle_bool_iff in Hr
  end.
  unfold cycle_angles; cbn [approach low recovery app].
  rewrite run_cons, run_app.
  replace (B ++ r :: R) with ((B ++ [r]) ++ R)
    by (now rewrite <- app_assoc).
  rewrite run_app.
  assert (Hstep : armed_high t m (step st a)).
  { destruct Hst as [[-> ->]|Hab]; [now apply step_init|].
    destruct (step_above m st a Hab Ha) as [Hs1 Hs2]. split; auto. }
  destruct Hstep as [Hs1 Hs2].
  destruct (run_above A m _ Hs1 HA) as [Hr1 Hr2].
  apply run_above; [|exact HR].
  apply run_low; auto. right; right. split; [split|]; auto.
Qed.

Lemma cycles_counted (cycles : list Cycle) (m : nat) (st : RepState) :
  cycle_start t m st ->
  forallb (noisy_cycle t) cycles = true ->
  session_reps (run st (flat_map cycle_angles cycles))
  = (m + List.length cycles)%nat.
Proof.
  revert m st; induction cycles as [|c cycles IH]; intros m st Hst Hcs.
  - cbn. rewrite Nat.add_0_r.
    destruct Hst as [[-> ->]|(p & _ & _ & Hn)]; [reflexivity|exact Hn].
  - cbn [forallb] in Hcs. apply andb_true_iff in Hcs as [Hc Hcs].
    cbn [flat_map List.length]. rewrite run_app.
    rewrite (IH (S m)); [lia| |exact Hcs].
    right. now apply cycle_counts_once.
Qed.

(** No angle above the reset threshold, at most one count. *)
Lemma at_most_one_count (l : list Q) (st : RepState) :
  forallb (fun a => Qle_bool a hi) l = true ->
  (session_reps st <= session_reps (run st l) <= S (session_reps st))%nat.
Proof.
  revert st; induction l as [|a l IH]; intros st Hl; [cbn; lia|].
  cbn [forallb] in Hl. apply andb_true_iff in Hl as [Ha Hl].
  rewrite run_cons. destruct (step_counts st a) as [E|Hc].
  - rewrite <- E. now apply IH.
  - destruct (run_counted l _ _ Hc Hl) as [_ ->]. lia.
Qed.

End BicepCurl.

(** ** Down-and-up sequences are cycles *)

Lemma forallb_weaken (P R : Q -> bool) (l : list Q) :
  (forall a, P a = true -> R a = true) ->
  forallb P l = true -> forallb R l = true.
Proof.
  intros HPR. induction l as [|x l IH]; [reflexivity|].
  cbn [forallb]. rewrite !andb_true_iff. intros [Hx Hl]. auto.
Qed.

Lemma forallb_existsb (P : Q -> bool) (l : list Q) :
  l <> [] -> forallb P l = true -> existsb P l = true.
Proof.
  destruct l as [|x l]; [congruence|]. cbn [forallb existsb].
  intros _ H. apply andb_true_iff in H as [-> _]. reflexivity.
Qed.

Lemma descending_all_lt (b : Q) (l : list Q) (p : Q) :
  descending p l -> p <= b -> forallb (fun a => Qltb a b) l = true.
Proof.
  revert p; induction l as [|x l IH]; intros p Hd Hp; [reflexivity|].
  destruct Hd as [Hx Hd]. cbn [forallb]. apply andb_true_iff. split.
  - apply Qltb_lt. Lqa.lra.
  - apply (IH x Hd). Lqa.lra.
Qed.

Lemma ascending_all_ge (b : Q) (l : list Q) (p : Q) :
  ascending p l -> b <= p -> forallb (fun a => Qle_bool b a) l = true.
Proof.
  revert p; induction l as [|x l IH]; intros p Ha Hp; [reflexivity|].
  destruct Ha as [Hx Ha]. cbn [forallb]. apply andb_true_iff. split.
  - apply Qle_bool_iff. Lqa.lra.
  - apply (IH x Ha). Lqa.lra.
Qed.

(** A descent splits at any level [b] into a part at or above it and a
    part below it; an ascent the other way round. *)
Lemma descending_split (b : Q) (l : list Q) (p : Q) :
  descending p l ->
  exists l1 l2, l = l1 ++ l2
                /\ forallb (fun a => Qle_bool b a) l1 = true
                /\ forallb (fun a => Qltb a b) l2 = true.
Proof.
  revert p; induction l as [|x l IH]; intros p Hd.
  - exists [], []. now repeat split.
  - destruct Hd as [Hx Hd]. destruct (Qle_bool b x) eqn:E.
    + destruct (IH x Hd) as (l1 & l2 & -> & H1 & H2).
      exists (x :: l1), l2. repeat split; [|exact H2].
      cbn [forallb]. now rewrite E.
    + exists [], (x :: l). repeat split.
      assert (Hxb : x < b) by (apply Qltb_lt; unfold Qltb; now rewrite E).
      cbn [forallb]. apply andb_true_iff. split; [now apply Qltb_lt|].
      apply (descending_all_lt b l x Hd). Lqa.lra.
Qed.

Lemma ascending_split (b : Q) (l : list Q) (p : Q) :
  ascending p l ->
  exists l1 l2, l = l1 ++ l2
                /\ forallb (fun a => Qltb a b) l1 = true
                /\ forallb (fun a => Qle_bool b a) l2 = true.
Proof.
  revert p; induction l as [|x l IH]; intros p Ha.
  - exists [], []. now repeat split.
  - destruct Ha as [Hx Ha]. destruct (Qltb x b) eqn:E.
    + destruct (IH x Ha) as (l1 & l2 & -> & H1 & H2).
      exists (x :: l1), l2. repeat split; [|exact H2].
      cbn [forallb]. now rewrite E.
    + exists [], (x :: l). repeat split.
      apply Qltb_ge in E.
      cbn [forallb]. apply andb_true_iff. split; [now apply Qle_bool_iff|].
      now apply (ascending_all_ge b l x Ha).
Qed.

Lemma down_up_is_cycle (s : list Q) :
  down_up s ->
  exists c, cycle_angles c = s
            /\ noisy_cycle (target_angles bicep_curl) c = true.
Proof.
  intros (d & u & -> & Hd & Hu).
  destruct (descending_split 40 _ _ Hd) as (l1 & l2 & Ed & Hl1 & Hl2).
  destruct (ascending_split 40 _ _ Hu) as (u1 & u2 & Eu & Hu1 & Hu2).
  exists (mkCycle (160 :: l1) (l2 ++ u1) u2). split.
  - unfold cycle_angles; cbn [approach low recovery].
    rewrite <- app_comm_cons. f_equal.
    rewrite <- app_assoc, app_assoc, <- Ed, <- Eu, <- app_assoc.
    reflexivity.
  - assert (Hl2' : l2 <> []).
    { intros ->. rewrite app_nil_r in Ed. subst l1.
      rewrite forallb_app in Hl1. apply andb_true_iff in Hl1 as [_ H].
      discriminate H. }
    assert (Hu2' : u2 <> []).
    { intros ->. rewrite app_nil_r in Eu. subst u1.
      rewrite forallb_app in Hu1. apply andb_true_iff in Hu1 as [_ H].
      discriminate H. }
    assert (Hlow : forallb (fun a => Qltb a 40) (l2 ++ u1) = true).
    { rewrite forallb_app. now rewrite Hl2, Hu1. }
    unfold noisy_cycle; cbn [approach low recovery].
    change (inject_Z (t_min (target_angles bicep_curl) + 10)) with 40.
    change (inject_Z (t_max (target_angles bicep_curl) - 20)) with 140.
    rewrite !andb_true_iff.
    repeat match goal with |- _ /\ _ => split end.
    + reflexivity.
    + cbn [forallb]. now rewrite Hl1.
    + revert Hlow. apply forallb_weaken. intros a Ha.
      apply Qltb_lt in Ha. apply Qle_bool_iff. Lqa.lra.
    + apply forallb_existsb; [|exact Hlow].
      destruct l2; [congruence|discriminate].
    + destruct u2; [congruence|reflexivity].
    + exact Hu2.
Qed.

Lemma clean_curl_down_up : down_up clean_curl.
Proof.
  exists (map inject_Z [150; 140; 130; 120; 110; 100; 90; 80; 70; 60; 50; 40]%Z),
         (map inject_Z [40; 50; 60; 70; 80; 90; 100; 110; 120; 130; 140; 150]%Z).
  split; [reflexivity|]. split; cbn; repeat split.
Qed.

(** C6. On the bicep-curl profile a fresh tracker counts exactly one
    repetition over any smoothed sequence that descends from 160 to 35 and
    climbs back to 160, and exactly two over that sequence fed twice; it
    counts exactly one per cycle however the angles jitter, as long as each
    cycle starts above the reset threshold 140, dips below 40 without
    exceeding 140 in its low part, and stays at or above 40 elsewhere; and
    from any state, a stretch with no angle above the reset threshold adds
    at most one repetition. *)
Theorem bicep_curl_cycles_counted :
  (forall s, down_up s -> bicep_reps s = 1%nat /\ bicep_reps (s ++ s) = 2%nat)
  /\ (forall cycles,
        forallb (noisy_cycle (target_angles bicep_curl)) cycles = true ->
        bicep_reps (flat_map cycle_angles cycles) = List.length cycles)
  /\ (forall st l,
        forallb (fun a => Qle_bool a 140) l = true ->
        let st' := track_reps "bicep curl" (target_angles bicep_curl) st l in
        (session_reps st <= session_reps st' <= S (session_reps st))%nat).
Proof.
  assert (Hcycles : forall cycles,
    forallb (noisy_cycle (target_angles bicep_curl)) cycles = true ->
    bicep_reps (flat_map cycle_angles cycles) = List.length cycles).
  { intros cycles Hc. unfold bicep_reps.
    rewrite (cycles_counted _ cycles 0 rep_init); [reflexivity| |exact Hc].
    left; now split. }
  split; [|split].
  - intros s Hs. destruct (down_up_is_cycle s Hs) as (c & <- & Hc). split.
    + rewrite <- (app_nil_r (cycle_angles c)).
      apply (Hcycles [c]). cbn [forallb]. now rewrite Hc.
    + rewrite <- (app_nil_r (cycle_angles c)) at 2.
      apply (Hcycles [c; c]). cbn [forallb]. now rewrite Hc.
  - exact Hcycles.
  - intros st l Hl. apply at_most_one_count. exact Hl.
Qed.

Lemma bicep_curl_cycles_counted_witness :
  bicep_reps clean_curl = 1%nat
  /\ bicep_reps (clean_curl ++ clean_curl) = 2%nat
  /\ bicep_reps (flat_map cycle_angles [jittery_curl; jittery_curl]) = 2%nat.
Proof.
  destruct bicep_curl_cycles_counted as (Hclean & Hnoisy & _).
  destruct (Hclean clean_curl clean_curl_down_up) as [H1 H2].
  split; [exact H1|]. split; [exact H2|].
  apply (Hnoisy [jittery_curl; jittery_curl]). reflexivity.
Defined.

(** The same counts by evaluation, and the counter after each angle of
    the jittery cycle fed twice never exceeds two. *)
Example clean_curl_evaluated :
  bicep_reps clean_curl = 1%nat
  /\ bicep_reps (clean_curl ++ clean_curl) = 2%nat
  /\ bicep_reps (cycle_angles jittery_curl ++ cycle_angles jittery_curl)
     = 2%nat.
Proof. repeat split. Qed.

(** ** Scoring *)

Lemma py_int_floor (q : Q) : 0 <= q -> py_int q = Qfloor q.
Proof.
  destruct q as [n d]. unfold Qle, py_int, Qfloor; cbn [Qnum Qden].
  intros H. apply Z.quot_div_nonneg; lia.
Qed.

Lemma len_pos (l : list Q) : l <> [] -> 0 < len l.
Proof.
  destruct l as [|x l]; [congruence|]. intros _.
  unfold len, Qlt; cbn [Qnum Qden inject_Z List.length]. lia.
Qed.

Lemma len_cons (x : Q) (l : list Q) : len (x :: l) == 1 + len l.
Proof.
  unfold len. cbn [List.length]. rewrite Nat2Z.inj_succ, <- Z.add_1_l.
  now rewrite inject_Z_plus.
Qed.

Lemma sum_map_ext (f g : Q -> Q) (l : list Q) :
  (forall a, f a == g a) ->
  fold_right Qplus 0 (map f l) == fold_right Qplus 0 (map g l).
Proof.
  intros Hfg. induction l as [|x l IH]; [reflexivity|].
  cbn [map fold_right]. now rewrite IH, Hfg.
Qed.

Lemma mean_map_ext (f g : Q -> Q) (l : list Q) :
  (forall a, f a == g a) -> mean (map f l) == mean (map g l).
Proof.
  intros Hfg. unfold mean, len. rewrite !length_map.
  now rewrite (sum_map_ext f g l Hfg).
Qed.

(** The sum of values in [0, 1] lies between 0 and their number. *)
Lemma sum_unit_bounds (f : Q -> Q) (l : list Q) :
  (forall a, 0 <= f a <= 1) ->
  0 <= fold_right Qplus 0 (map f l) <= len (map f l).
Proof.
  intros Hf. induction l as [|x l IH].
  - cbn. split; apply Qle_refl.
  - cbn [map fold_right]. rewrite len_cons.
    specialize (Hf x). Lqa.lra.
Qed.

Lemma mean_unit_bounds (f : Q -> Q) (l : list Q) :
  l <> [] -> (forall a, 0 <= f a <= 1) -> 0 <= mean (map f l) <= 1.
Proof.
  intros Hl Hf. destruct (sum_unit_bounds f l Hf) as [H0 H1].
  assert (Hlen : 0 < len (map f l)).
  { apply len_pos. destruct l; [congruence|discriminate]. }
  unfold mean. split.
  - apply Qle_shift_div_l; [exact Hlen|]. Lqa.lra.
  - apply Qle_shift_div_r; [exact Hlen|]. Lqa.lra.
Qed.

(** The mean of a list whose entries all equal [c]. *)
Lemma mean_constant (f : Q -> Q) (c : Q) (l : list Q) :
  l <> [] -> (forall a, In a l -> f a == c) -> mean (map f l) == c.
Proof.
  intros Hl Hc.
  assert (Hsum : fold_right Qplus 0 (map f l) == len (map f l) * c).
  { clear Hl. induction l as [|x l IH].
    - unfold len. cbn. ring.
    - assert (Hx : f x == c) by (apply Hc; now left).
      assert (Hl : forall a, In a l -> f a == c)
        by (intros a Ha; apply Hc; now right).
      cbn [map fold_right]. rewrite len_cons, (IH Hl), Hx. ring. }
  assert (Hlen : 0 < len (map f l)).
  { apply len_pos. destruct l; [congruence|discriminate]. }
  unfold mean. rewrite Hsum. field. Lqa.lra.
Qed.

Section Scoring.

Variable t : TargetAngles.

(** Line 1059-1060 for one angle. *)
Let deviation (angle : Q) : Q :=
  min_one (np_divide (Qabs (angle - inject_Z (t_ideal t))) (max_deviation t)).

Lemma deviations_map (angles : list Q) :
  deviations t angles = map deviation angles.
Proof. reflexivity. Qed.

(** The score once the mean deviation is known not to exceed 1. *)
Lemma performance_floor (angles : list Q) (m : Q) :
  mean (map deviation angles) == m -> m <= 1 ->
  performance_score t angles = Qfloor ((1 - m) * 100).
Proof.
  intros Hm Hle. unfold performance_score.
  rewrite deviations_map, py_int_floor.
  - apply Qfloor_comp. now rewrite average_mean, Hm.
  - rewrite average_mean, Hm. Lqa.lra.
Qed.

Lemma deviation_spec (angle : Q) :
  (0 < max_deviation t)%Z -> deviation angle == spec_deviation t angle.
Proof.
  intros Hmd. unfold deviation, spec_deviation, np_divide.
  destruct (Z.eqb_spec (max_deviation t) 0) as [E|_]; [lia|].
  cbn [min_one].
  set (q := Qabs (angle - inject_Z (t_ideal t)) / inject_Z (max_deviation t)).
  destruct (Qltb q 1) eqn:E.
  - apply Qltb_lt in E. symmetry. apply Q.min_r. now apply Qlt_le_weak.
  - apply Qltb_ge in E. symmetry. now apply Q.min_l.
Qed.

Lemma spec_deviation_unit (angle : Q) :
  (0 < max_deviation t)%Z -> 0 <= spec_deviation t angle <= 1.
Proof.
  intros Hmd. unfold spec_deviation. split.
  - apply Q.min_glb; [Lqa.lra|].
    apply Qle_shift_div_l.
    + change 0 with (inject_Z 0). now rewrite <- Zlt_Qlt.
    + rewrite Qmult_0_l. apply Qabs_nonneg.
  - apply Q.le_min_l.
Qed.

Lemma deviation_degenerate (angle : Q) :
  max_deviation t = 0%Z -> deviation angle = 1.
Proof.
  intros E. unfold deviation, np_divide. rewrite E. cbn [Z.eqb].
  now destruct (Qeq_bool _ _).
Qed.

Lemma performance_is_floor (angles : list Q) :
  angles <> [] -> (0 < max_deviation t)%Z ->
  performance_score t angles
  = Qfloor ((1 - mean (map (spec_deviation t) angles)) * 100)
  /\ (0 <= performance_score t angles <= 100)%Z.
Proof.
  intros Hne Hmd.
  assert (Hm : mean (map deviation angles)
               == mean (map (spec_deviation t) angles))
    by (apply mean_map_ext; intros a; now apply deviation_spec).
  destruct (mean_unit_bounds (spec_deviation t) angles Hne
              (fun a => spec_deviation_unit a Hmd)) as [H0 H1].
  rewrite (performance_floor angles _ Hm H1). split; [reflexivity|].
  set (x := (1 - mean (map (spec_deviation t) angles)) * 100).
  assert (Hx : 0 <= x <= 100) by (subst x; Lqa.lra).
  split.
  - apply (Qfloor_resp_le 0 x), Hx.
  - apply (Qfloor_resp_le x 100), Hx.
Qed.

(** A session stuck at one angle [c]. *)
Lemma performance_constant (angles : list Q) (c : Q) :
  angles <> [] -> (0 < max_deviation t)%Z ->
  (forall a, In a angles -> a == c) ->
  performance_score t angles = Qfloor ((1 - spec_deviation t c) * 100).
Proof.
  intros Hne Hmd Hc.
  destruct (spec_deviation_unit c Hmd) as [_ H1].
  apply performance_floor; [|exact H1].
  apply mean_constant; [exact Hne|]. intros a Ha.
  rewrite (deviation_spec a Hmd). unfold spec_deviation.
  now rewrite (Hc a Ha).
Qed.

Lemma performance_degenerate (angles : list Q) :
  angles <> [] -> max_deviation t = 0%Z ->
  performance_score t angles = 0%Z.
Proof.
  intros Hne Hmd.
  rewrite (performance_floor angles 1); [reflexivity| |Lqa.lra].
  apply mean_constant; [exact Hne|]. intros a _.
  now rewrite deviation_degenerate.
Qed.

Lemma Qabs_inject_diff (a b : Z) :
  Qabs (inject_Z a - inject_Z b) == inject_Z (Z.abs (a - b)).
Proof.
  unfold Qeq, Qabs, Qminus, Qplus, Qopp, inject_Z; cbn [Qnum Qden].
  f_equal. f_equal. lia.
Qed.

Lemma spec_deviation_ideal :
  (0 < max_deviation t)%Z ->
  spec_deviation t (inject_Z (t_ideal t)) == 0.
Proof.
  intros Hmd. unfold spec_deviation.
  rewrite Qabs_inject_diff, Z.sub_diag. cbn [Z.abs].
  assert (H : inject_Z 0 / inject_Z (max_deviation t) == 0)
    by (unfold Qdiv; apply Qmult_0_l).
  rewrite H. reflexivity.
Qed.

(** An angle at least [max_deviation] away from the ideal one. *)
Lemma spec_deviation_far (b : Z) :
  (0 < max_deviation t <= Z.abs (b - t_ideal t))%Z ->
  spec_deviation t (inject_Z b) == 1.
Proof.
  intros [Hmd Hfar]. unfold spec_deviation. rewrite Qabs_inject_diff.
  apply Q.min_l. apply Qle_shift_div_l.
  - change 0 with (inject_Z 0). now rewrite <- Zlt_Qlt.
  - rewrite Qmult_1_l. now rewrite <- Zle_Qle.
Qed.

End Scoring.

Lemma save_session_record (e : ExerciseData) (duration : Z) (s : Session) :
  session_angles s <> [] ->
  save_session e duration s
  = Some (mkRecord (name e) (duration / 60) (session_reps (rep s))
                   (performance_score (target_angles e) (session_angles s))
                   (firstn 100 (session_angles s))).
Proof.
  unfold save_session. destruct (session_angles s); [congruence|reflexivity].
Qed.

(** C2, as the code has it. For a profile with min = max = ideal the scoring has no
    guard on the zero [max_deviation]: the quotient of line 1059 is numpy's
    inf or nan, [min(1.0, ...)] turns either into 1.0, and every non-empty
    session gets a record whose performance is 0. *)
Theorem degenerate_profile_scores_zero
    (e : ExerciseData) (duration : Z) (s : Session) :
  t_min (target_angles e) = t_ideal (target_angles e) ->
  t_max (target_angles e) = t_ideal (target_angles e) ->
  session_angles s <> [] ->
  Forall (fun d => d = 1) (deviations (target_angles e) (session_angles s))
  /\ exists r, save_session e duration s = Some r
               /\ rec_performance r = 0%Z.
Proof.
  intros Hmin Hmax Hne.
  assert (Hmd : max_deviation (target_angles e) = 0%Z)
    by (unfold max_deviation; lia).
  split.
  - unfold deviations. apply Forall_map, Forall_forall. intros a _.
    now apply deviation_degenerate.
  - eexists. split; [now apply save_session_record|].
    cbn [rec_performance]. now apply performance_degenerate.
Qed.

(** One frame at 90 degrees on the profile min = max = ideal = 90: the
    session is not empty, [max_deviation] is 0, and no record with
    performance 100 comes out (the record carries 0). *)
Lemma degenerate_profile_not_100 :
  let s := process_frames "degenerate" (target_angles degenerate_profile)
                          start_camera [Some 90] in
  session_angles s <> []
  /\ max_deviation (target_angles degenerate_profile) = 0%Z
  /\ ~ (exists r, save_session degenerate_profile 60 s = Some r
                  /\ rec_performance r = 100%Z).
Proof.
  cbn zeta. split; [discriminate|]. split; [reflexivity|].
  intros (r & Hr & Hp). injection Hr as <-. discriminate Hp.
Qed.

Lemma degenerate_profile_scores_zero_witness :
  exists r,
    save_session degenerate_profile 60
      (process_frames "degenerate" (target_angles degenerate_profile)
                      start_camera [Some 90; Some 45])
    = Some r
    /\ rec_performance r = 0%Z.
Proof.
  apply (degenerate_profile_scores_zero degenerate_profile 60
           (process_frames "degenerate" (target_angles degenerate_profile)
                           start_camera [Some 90; Some 45]));
    [reflexivity | reflexivity | discriminate].
Defined.





(** The same line in binary64.  One frame at 31 degrees on the bicep curl
    scores 15 there as well.  One frame at 153 degrees gives
    (1 - 63/70) * 100, which is 10 in exact arithmetic and
    9.999999999999998 in binary64: the recorded score is 9, one below
    the rounded value.  Likewise 70 degrees on the shoulder press and 143
    degrees on the squat. *)
Lemma performance_score64_examples :
  performance_score64 (target_angles bicep_curl) [float_of_int 31] = Some 15%Z
  /\ performance_score64 (target_angles bicep_curl) [float_of_int 153]
     = Some 9%Z
  /\ performance_score (target_angles bicep_curl) [153] = 10%Z
  /\ performance_score64 (target_angles shoulder_press) [float_of_int 70]
     = Some 9%Z
  /\ performance_score (target_angles shoulder_press) [70] = 10%Z
  /\ performance_score64 (target_angles squat) [float_of_int 143] = Some 44%Z
  /\ performance_score (target_angles squat) [143] = 45%Z.
Proof. repeat split; vm_compute; reflexivity. Qed.

(** Every one-frame session at a whole number of degrees from 0 to 180,
    on each registered exercise: the binary64 score is the rounded exact
    value or one below it, and lies in [0, 100]. *)
Lemma performance_score64_single_frames :
  forall e a,
    In e [bicep_curl; push_up; squat; shoulder_press] ->
    In a (map Z.of_nat (seq 0 181)) ->
    exists p,
      performance_score64 (target_angles e) [float_of_int a] = Some p
      /\ (let x := (1 - mean (map (spec_deviation (target_angles e))
                                  [inject_Z a])) * 100 in
          (py_round x - 1 <= p <= py_round x)%Z)
      /\ (0 <= p <= 100)%Z.
Proof.
  assert (H : forallb (fun e =>
                forallb (fun a =>
                  match performance_score64 (target_angles e)
                                            [float_of_int a] with
                  | Some p =>
                      let x := (1 - mean (map (spec_deviation (target_angles e))
                                              [inject_Z a])) * 100 in
                      ((py_round x - 1 <=? p) && (p <=? py_round x)
                       && (0 <=? p) && (p <=? 100))%Z
                  | None => false
                  end)
                  (map Z.of_nat (seq 0 181)))
                [bicep_curl; push_up; squat; shoulder_press] = true)
    by (vm_compute; reflexivity).
  intros e a He Ha. rewrite forallb_forall in H.
  specialize (H e He). rewrite forallb_forall in H. specialize (H a Ha).
  destruct (performance_score64 (target_angles e) [float_of_int a]) as [p|];
    [|discriminate].
  exists p. split; [reflexivity|]. cbn zeta in *.
  rewrite !andb_true_iff, !Z.leb_le in H. lia.
Qed.

(** C4, as the code has it. The record of a non-empty session keeps the first 100
    smoothed angles of the session, earliest first: all of them when 100 or
    fewer were recorded, and the earliest 100 when more were. *)
Theorem record_keeps_first_100
    (e : ExerciseData) (duration : Z) (s : Session) :
  session_angles s <> [] ->
  exists r,
    save_session e duration s = Some r
    /\ rec_angles r = firstn 100 (session_angles s)
    /\ (List.length (rec_angles r) <= 100)%nat
    /\ ((List.length (session_angles s) <= 100)%nat ->
        rec_angles r = session_angles s).
Proof.
  intros Hne. eexists. split; [now apply save_session_record|].
  cbn [rec_angles]. split; [reflexivity|]. split.
  - rewrite length_firstn. lia.
  - intros Hlen. now apply firstn_all2.
Qed.

(** A first frame at 10 degrees followed by a hundred frames at 20: the
    101 smoothed angles start 10, 15, ...; the record starts with 10, the
    most recent hundred start with 15. *)
Lemma record_drops_most_recent :
  let s := curl_session (10 :: repeat 20 100) in
  List.length (session_angles s) = 101%nat
  /\ exists r,
       save_session bicep_curl 60 s = Some r
       /\ hd 0 (rec_angles r) == 10
       /\ hd 0 (most_recent 100 (session_angles s)) == 15
       /\ rec_angles r <> most_recent 100 (session_angles s).
Proof.
  cbn zeta. set (s := curl_session _).
  assert (Hlen : List.length (session_angles s) = 101%nat)
    by (vm_compute; reflexivity).
  split; [exact Hlen|].
  assert (Hne : session_angles s <> [])
    by (intros E; rewrite E in Hlen; discriminate Hlen).
  eexists. split; [apply save_session_record; exact Hne|].
  cbn [rec_angles].
  assert (H1 : hd 0 (firstn 100 (session_angles s)) == 10)
    by (vm_compute; reflexivity).
  assert (H2 : hd 0 (most_recent 100 (session_angles s)) == 15)
    by (vm_compute; reflexivity).
  split; [exact H1|]. split; [exact H2|].
  intros E. rewrite E, H2 in H1. discriminate H1.
Qed.

Lemma record_keeps_first_100_witness :
  exists r,
    save_session bicep_curl 60 (curl_session [160; 150]) = Some r
    /\ rec_angles r = session_angles (curl_session [160; 150]).
Proof.
  destruct (record_keeps_first_100 bicep_curl 60 (curl_session [160; 150]))
    as (r & Hr & _ & _ & Hall); [discriminate|].
  exists r. split; [exact Hr|]. apply Hall. simpl. lia.
Defined.

(** C5, as the code has it. For a profile with min < ideal < max, a non-empty
    session whose every smoothed angle equals ideal is recorded with
    performance 100, and one whose every smoothed angle equals the bound
    that lies at least as far from ideal as the other bound is recorded
    with performance 0. *)
Theorem constant_session_scores
    (e : ExerciseData) (duration : Z) (s : Session) :
  let t := target_angles e in
  (t_min t < t_ideal t < t_max t)%Z ->
  session_angles s <> [] ->
  exists r,
    save_session e duration s = Some r
    /\ (Forall (fun a => a == inject_Z (t_ideal t)) (session_angles s) ->
        rec_performance r = 100%Z)
    /\ (Forall (fun a => a == inject_Z (t_max t)) (session_angles s) ->
        (t_ideal t - t_min t <= t_max t - t_ideal t)%Z ->
        rec_performance r = 0%Z)
    /\ (Forall (fun a => a == inject_Z (t_min t)) (session_angles s) ->
        (t_max t - t_ideal t <= t_ideal t - t_min t)%Z ->
        rec_performance r = 0%Z).
Proof.
  intros t Horder Hne.
  assert (Hmd : (0 < max_deviation t)%Z) by (unfold max_deviation; lia).
  eexists. split; [now apply save_session_record|].
  cbn [rec_performance]. fold t. split; [|split].
  - intros Hall. rewrite Forall_forall in Hall.
    rewrite (performance_constant t _ _ Hne Hmd Hall).
    now rewrite (spec_deviation_ideal t Hmd).
  - intros Hall Hfar. rewrite Forall_forall in Hall.
    rewrite (performance_constant t _ _ Hne Hmd Hall).
    rewrite (spec_deviation_far t (t_max t)); [reflexivity|].
    unfold max_deviation in *. lia.
  - intros Hall Hfar. rewrite Forall_forall in Hall.
    rewrite (performance_constant t _ _ Hne Hmd Hall).
    rewrite (spec_deviation_far t (t_min t)); [reflexivity|].
    unfold max_deviation in *. lia.
Qed.

(** Three frames at 30 degrees, the bicep curl's min: every smoothed angle
    equals min and the recorded performance is 14. *)
Lemma session_at_min_scores_14 :
  let t := target_angles bicep_curl in
  let s := curl_session [30; 30; 30] in
  (t_min t < t_ideal t < t_max t)%Z
  /\ session_angles s <> []
  /\ Forall (fun a => a == inject_Z (t_min t)) (session_angles s)
  /\ exists r, save_session bicep_curl 60 s = Some r
               /\ rec_performance r = 14%Z
               /\ rec_performance r <> 0%Z.
Proof.
  cbn zeta. split; [cbn; lia|]. split; [discriminate|]. split.
  - repeat constructor.
  - eexists. split; [reflexivity|]. split; [reflexivity|discriminate].
Qed.

Lemma constant_session_scores_witness :
  exists r,
    save_session bicep_curl 60 (curl_session [90; 90]) = Some r
    /\ rec_performance r = 100%Z.
Proof.
  destruct (constant_session_scores bicep_curl 60 (curl_session [90; 90]))
    as (r & Hr & Hideal & _); [cbn; lia | discriminate |].
  exists r. split; [exact Hr|]. apply Hideal. repeat constructor.
Defined.

(** ** The joint angle *)

Section JointAngle.

Local Open Scope R_scope.

Lemma atan_pos (x : R) : 0 < x -> 0 < atan x.
Proof. intros H. rewrite <- atan_0. now apply atan_increasing. Qed.

Lemma atan_nonpos (x : R) : x <= 0 -> atan x <= 0.
Proof.
  intros [H| ->]; [|rewrite atan_0; lra].
  rewrite <- atan_0. left. now apply atan_increasing.
Qed.

(** [arctan2] takes its values in (-PI, PI]. *)
Lemma arctan2_range (y x : R) : - PI < arctan2 y x <= PI.
Proof.
  pose proof PI_RGT_0 as Hpi. unfold arctan2.
  destruct (Rlt_dec 0 x) as [Hx|Hx].
  - pose proof (atan_bound (y / x)). lra.
  - destruct (Rlt_dec x 0) as [Hx'|Hx'].
    + assert (Hinv : / x < 0) by now apply Rinv_lt_0_compat.
      pose proof (atan_bound (y / x)) as Hb.
      destruct (Rle_dec 0 y) as [Hy|Hy].
      * assert (Hq : y / x <= 0) by (unfold Rdiv; nra).
        pose proof (atan_nonpos _ Hq). lra.
      * assert (Hq : 0 < y / x) by (unfold Rdiv; nra).
        pose proof (atan_pos _ Hq). lra.
    + destruct (Rlt_dec 0 y); [lra|]. destruct (Rlt_dec y 0); lra.
Qed.

(** Radians to degrees keeps the order: 180 / PI is positive. *)
Lemma degrees_bound (r : R) :
  - (2 * PI) < r < 2 * PI -> 0 <= Rabs (r * 180 / PI) < 360.
Proof.
  pose proof PI_RGT_0 as Hpi. intros [Hlo Hhi].
  assert (Hu : 0 < / PI) by now apply Rinv_0_lt_compat.
  assert (Hone : PI * / PI = 1) by (field; lra).
  split; [apply Rabs_pos|].
  apply Rabs_def1; unfold Rdiv; nra.
Qed.

Lemma calculate_angle_range (a b c : Point) :
  0 <= calculate_angle a b c <= 180.
Proof.
  unfold calculate_angle.
  set (r := arctan2 (snd c - snd b) (fst c - fst b)
            - arctan2 (snd a - snd b) (fst a - fst b)).
  assert (Hr : - (2 * PI) < r < 2 * PI).
  { pose proof (arctan2_range (snd c - snd b) (fst c - fst b)).
    pose proof (arctan2_range (snd a - snd b) (fst a - fst b)).
    subst r. lra. }
  pose proof (degrees_bound r Hr) as Hd. cbn zeta.
  destruct (Rlt_dec 180 (Rabs (r * 180 / PI))); lra.
Qed.

Lemma calculate_angle_spec (a b c : Point) :
  calculate_angle a b c = spec_angle a b c.
Proof.
  pose proof PI_RGT_0 as Hpi.
  unfold calculate_angle, spec_angle. cbn zeta.
  set (r := arctan2 (snd c - snd b) (fst c - fst b)
            - arctan2 (snd a - snd b) (fst a - fst b)).
  assert (Hk : 0 <= 180 / PI).
  { left. apply Rdiv_lt_0_compat; lra. }
  replace (r * 180 / PI) with (r * (180 / PI)) by (field; lra).
  rewrite Rabs_mult, (Rabs_pos_eq (180 / PI) Hk). reflexivity.
Qed.

(** A right angle at the vertex measures 90 degrees. *)
Example right_angle :
  calculate_angle (1, 0) (0, 0) (0, 1) = 90.
Proof.
  pose proof PI_RGT_0 as Hpi.
  assert (Hc : arctan2 (1 - 0) (0 - 0) = PI / 2).
  { unfold arctan2.
    destruct (Rlt_dec 0 (0 - 0)); [lra|].
    destruct (Rlt_dec (0 - 0) 0); [lra|].
    destruct (Rlt_dec 0 (1 - 0)); [reflexivity|lra]. }
  assert (Ha : arctan2 (0 - 0) (1 - 0) = 0).
  { unfold arctan2. destruct (Rlt_dec 0 (1 - 0)); [|lra].
    replace ((0 - 0) / (1 - 0)) with 0 by (field; lra). apply atan_0. }
  unfold calculate_angle; cbn [fst snd]. rewrite Hc, Ha.
  replace ((PI / 2 - 0) * 180 / PI) with 90 by (field; lra).
  rewrite Rabs_pos_eq by lra.
  destruct (Rlt_dec 180 90); lra.
Qed.

End JointAngle.

Section Int64Angle.

Local Open Scope R_scope.

Lemma int64_wrap_fits (z : Z) : fits_int64 z -> int64_wrap z = z.
Proof.
  unfold fits_int64, int64_wrap. intros H.
  assert (E : (2 ^ 64 = 2 * 2 ^ 63)%Z) by reflexivity.
  rewrite Z.mod_small; lia.
Qed.

Lemma calculate_angle_int64_range (a b c : Pixel) :
  0 <= calculate_angle_int64 a b c <= 180.
Proof.
  unfold calculate_angle_int64.
  set (yc := IZR (int64_sub (snd c) (snd b))).
  set (xc := IZR (int64_sub (fst c) (fst b))).
  set (ya := IZR (int64_sub (snd a) (snd b))).
  set (xa := IZR (int64_sub (fst a) (fst b))).
  set (r := arctan2 yc xc - arctan2 ya xa).
  assert (Hr : - (2 * PI) < r < 2 * PI).
  { pose proof (arctan2_range yc xc). pose proof (arctan2_range ya xa).
    subst r. lra. }
  pose proof (degrees_bound r Hr) as Hd. cbn zeta.
  destruct (Rlt_dec 180 (Rabs (r * 180 / PI))); lra.
Qed.

(** Without overflow the int64 differences are the differences. *)
Lemma calculate_angle_int64_exact (a b c : Pixel) :
  no_overflow a b -> no_overflow c b ->
  calculate_angle_int64 a b c
  = calculate_angle (point_of a) (point_of b) (point_of c).
Proof.
  intros [Hax Hay] [Hcx Hcy].
  unfold calculate_angle_int64, calculate_angle, int64_sub, point_of.
  cbn [fst snd].
  rewrite !int64_wrap_fits by assumption.
  now rewrite !minus_IZR.
Qed.

Lemma small_no_overflow (p b : Pixel) :
  (Z.abs (fst p) < 2 ^ 62)%Z -> (Z.abs (snd p) < 2 ^ 62)%Z ->
  (Z.abs (fst b) < 2 ^ 62)%Z -> (Z.abs (snd b) < 2 ^ 62)%Z ->
  no_overflow p b.
Proof.
  unfold no_overflow, fits_int64.
  assert (E : (2 ^ 63 = 2 * 2 ^ 62)%Z) by reflexivity.
  intros. lia.
Qed.

Lemma inv_big_unit (n : R) : 1 < n -> 0 < / n < 1.
Proof.
  intros Hn. assert (Hp : 0 < / n) by (apply Rinv_0_lt_compat; lra).
  assert (E : n * / n = 1) by (apply Rinv_r; lra).
  split; [exact Hp|]. nra.
Qed.

End Int64Angle.

(** C8, as the code has it.  On integer pixel coordinates that fit int64
    [calculate_angle] returns a number of [0, 180]: the absolute
    difference of the two [arctan2] bearings in degrees, replaced by 360
    minus itself when above 180, the bearings being taken of the int64
    differences c - b and a - b.  Whenever no coordinate difference leaves
    the int64 range, as with all coordinates below 2^62 in absolute
    value, these are the true differences: the value is the one the same
    lines give on the points of the plane. *)
Theorem calculate_angle_int64_in_range (a b c : Pixel) :
  int64_point a -> int64_point b -> int64_point c ->
  (0 <= calculate_angle_int64 a b c <= 180)%R
  /\ (no_overflow a b -> no_overflow c b ->
      calculate_angle_int64 a b c
      = calculate_angle (point_of a) (point_of b) (point_of c))
  /\ (small_pixel a -> small_pixel b -> small_pixel c ->
      calculate_angle_int64 a b c
      = calculate_angle (point_of a) (point_of b) (point_of c)).
Proof.
  intros _ _ _. split; [apply calculate_angle_int64_range|].
  split; [apply calculate_angle_int64_exact|].
  intros [Ha1 Ha2] [Hb1 Hb2] [Hc1 Hc2].
  apply calculate_angle_int64_exact; now apply small_no_overflow.
Qed.

(** The three pixels (2^63 - 1, 1), (-1, 0) and (0, 0) fit int64.  The
    formula on the true differences (2^63, 1) and (1, 0) gives an angle
    below 45 degrees (about 6e-18); the difference 2^63 wraps to -2^63, and
    the value returned is above 135 degrees (180.0 in binary64). *)
Lemma calculate_angle_differences_wrap :
  let a : Pixel := (9223372036854775807, 1)%Z in
  let b : Pixel := (-1, 0)%Z in
  let c : Pixel := (0, 0)%Z in
  int64_point a /\ int64_point b /\ int64_point c
  /\ ~ no_overflow a b
  /\ (spec_angle (point_of a) (point_of b) (point_of c) < 45)%R
  /\ (135 < calculate_angle_int64 a b c)%R.
Proof.
  cbn zeta. pose proof PI_RGT_0 as Hpi.
  assert (Hk : (0 < 180 / PI)%R) by (apply Rdiv_lt_0_compat; lra).
  assert (Hu : (0 < / PI)%R) by now apply Rinv_0_lt_compat.
  assert (Hone : (PI * / PI = 1)%R) by (field; lra).
  split; [|split; [|split; [|split; [|split]]]].
  - unfold int64_point, fits_int64. cbn [fst snd]. lia.
  - unfold int64_point, fits_int64. cbn [fst snd]. lia.
  - unfold int64_point, fits_int64. cbn [fst snd]. lia.
  - unfold no_overflow, fits_int64. cbn [fst snd]. lia.
  - unfold spec_angle, point_of. cbn [fst snd].
    assert (Hc : arctan2 (0 - 0) (0 - -1) = 0%R).
    { unfold arctan2. destruct (Rlt_dec 0 (0 - -1)); [|lra].
      replace ((0 - 0) / (0 - -1))%R with 0%R by (field; lra).
      apply atan_0. }
    assert (Ha : (0 < arctan2 (1 - 0) (9223372036854775807 - -1) < PI / 4)%R).
    { unfold arctan2.
      destruct (Rlt_dec 0 (9223372036854775807 - -1)); [|lra].
      replace ((1 - 0) / (9223372036854775807 - -1))%R
        with (/ 9223372036854775808)%R by (field; lra).
      destruct (inv_big_unit 9223372036854775808) as [H0 H1]; [lra|].
      split; [now apply atan_pos|].
      rewrite <- atan_1. now apply atan_increasing. }
    rewrite Hc.
    set (t := arctan2 (1 - 0) (9223372036854775807 - -1)) in *.
    rewrite Rabs_left by lra.
    assert (Hlt : (- (0 - t) * (180 / PI) < 45)%R).
    { replace 45%R with (PI / 4 * (180 / PI))%R by (field; lra).
      apply Rmult_lt_compat_r; lra. }
    destruct (Rlt_dec 180 (- (0 - t) * (180 / PI))); lra.
  - unfold calculate_angle_int64. cbn [fst snd].
    replace (int64_sub 0 0) with 0%Z by reflexivity.
    replace (int64_sub 0 (-1)) with 1%Z by reflexivity.
    replace (int64_sub 1 0) with 1%Z by reflexivity.
    replace (int64_sub 9223372036854775807 (-1))
      with (-9223372036854775808)%Z by reflexivity.
    assert (Hc : arctan2 0 1 = 0%R).
    { unfold arctan2. destruct (Rlt_dec 0 1); [|lra].
      replace (0 / 1)%R with 0%R by (field; lra). apply atan_0. }
    assert (Ha : (3 * PI / 4 < arctan2 1 (-9223372036854775808) < PI)%R).
    { unfold arctan2.
      destruct (Rlt_dec 0 (-9223372036854775808)); [lra|].
      destruct (Rlt_dec (-9223372036854775808) 0); [|lra].
      destruct (Rle_dec 0 1); [|lra].
      replace (1 / -9223372036854775808)%R
        with (- / 9223372036854775808)%R by (field; lra).
      destruct (inv_big_unit 9223372036854775808) as [H0 H1]; [lra|].
      rewrite atan_opp.
      pose proof (atan_pos _ H0) as Hp.
      pose proof (atan_increasing _ _ H1) as Hq. rewrite atan_1 in Hq.
      lra. }
    rewrite Hc.
    set (t := arctan2 1 (-9223372036854775808)) in *.
    assert (Hd : (-180 < (0 - t) * 180 / PI < -135)%R)
      by (unfold Rdiv; nra).
    rewrite Rabs_left by lra.
    destruct (Rlt_dec 180 (- ((0 - t) * 180 / PI))); lra.
Qed.

Lemma calculate_angle_int64_in_range_witness :
  (0 <= calculate_angle_int64 (3, 4)%Z (1, 1)%Z (-3, -5)%Z <= 180)%R.
Proof.
  apply (calculate_angle_int64_in_range (3, 4)%Z (1, 1)%Z (-3, -5)%Z);
    unfold int64_point, fits_int64; cbn [fst snd]; lia.
Defined.

(** C9. Swapping the first and the third point leaves the angle
    unchanged. *)
Theorem calculate_angle_swap (a b c : Point) :
  calculate_angle a b c = calculate_angle c b a.
Proof.
  pose proof PI_RGT_0 as Hpi. unfold calculate_angle. cbn zeta.
  set (x := arctan2 (snd c - snd b) (fst c - fst b)).
  set (y := arctan2 (snd a - snd b) (fst a - fst b)).
  replace ((y - x) * 180 / PI)%R with (- ((x - y) * 180 / PI))%R
    by (field; lra).
  now rewrite Rabs_Ropp.
Qed.

(* ================================================================== *)
(** * Further properties of the frame loop *)

(** ** Frames without landmarks; the feedback log *)

Lemma process_frames_cons (ex : string) (t : TargetAngles) (s : Session)
    (f : option Q) (frames : list (option Q)) :
  process_frames ex t s (f :: frames)
  = process_frames ex t (process_frame ex t s f) frames.
Proof. reflexivity. Qed.

(** Frames without pose landmarks are transparent: the session reached
    is the one reached from the frames that carry landmarks alone. *)
Theorem frames_without_landmarks_ignored
    (ex : string) (t : TargetAngles) (s : Session)
    (frames : list (option Q)) :
  process_frames ex t s frames
  = process_frames ex t s (map Some (samples frames)).
Proof.
  revert s; induction frames as [|[a|] frames IH]; intros s;
    [reflexivity| |].
  - cbn [samples flat_map app map]. rewrite !process_frames_cons.
    apply IH.
  - rewrite process_frames_cons. cbn [process_frame samples flat_map app].
    apply IH.
Qed.

(** The feedback log holds, frame by frame, the classification of the
    smoothed angle recorded for that frame; in particular both logs have
    one entry per frame with landmarks. *)
Theorem feedback_log_follows_angles
    (ex : string) (t : TargetAngles) (frames : list (option Q)) :
  let s := process_frames ex t start_camera frames in
  session_feedback s
  = map (fun a => generate_feedback a t ex) (session_angles s)
  /\ List.length (session_feedback s) = List.length (samples frames)
  /\ List.length (session_angles s) = List.length (samples frames).
Proof.
  cbn zeta.
  assert (H : session_feedback (process_frames ex t start_camera frames)
              = map (fun a => generate_feedback a t ex)
                    (session_angles (process_frames ex t start_camera frames))).
  { induction frames as [|f frames IH] using rev_ind; [reflexivity|].
    rewrite run_snoc. destruct f as [a|]; [|exact IH].
    cbn [process_frame process_landmarks session_feedback session_angles].
    now rewrite map_app, IH. }
  split; [exact H|]. rewrite H, length_map, session_angles_length.
  now split.
Qed.
(** ** The smoothed angle stays within the raw angles *)







(** The smoothed angle recorded last is the average of the window. *)
Lemma last_smoothed_angle (ex : string) (t : TargetAngles)
    (frames : list (option Q)) :
  last (session_angles (process_frames ex t start_camera frames)) 0
  = match most_recent maxlen (samples frames) with
    | [] => 0
    | w => average w
    end.
Proof.
  rewrite session_angles_windows.
  destruct (samples frames) as [|a l] eqn:E using rev_ind; [reflexivity|].
  clear IHl. rewrite length_app, Nat.add_comm. cbn [List.length Nat.add].
  rewrite seq_S, map_app. cbn [map]. rewrite last_last.
  rewrite firstn_all2 by (rewrite length_app; cbn; lia).
  destruct (most_recent maxlen (l ++ [a])) eqn:Ew; [|reflexivity].
  exfalso. apply (f_equal (@List.length Q)) in Ew.
  rewrite most_recent_length, length_app in Ew.
  cbn [List.length] in Ew. unfold maxlen in Ew. lia.
Qed.

(** Smoothing forgets what is older than ten samples: two sessions whose
    ten most recent raw angles coincide hold the same buffer and record
    the same smoothed angle for their last frame, whatever came before.
    In particular, after ten frames with one raw angle the buffer holds
    ten copies of it and the smoothed angle is the one a session of these
    ten frames alone records. *)
Theorem smoothing_forgets_older_frames
    (ex : string) (t : TargetAngles) (frames frames' : list (option Q)) :
  most_recent maxlen (samples frames) = most_recent maxlen (samples frames') ->
  let s := process_frames ex t start_camera frames in
  let s' := process_frames ex t start_camera frames' in
  angle_buffer s = angle_buffer s'
  /\ last (session_angles s) 0 = last (session_angles s') 0.
Proof.
  intros H. cbn zeta. split.
  - now rewrite !angle_buffer_recent.
  - now rewrite !last_smoothed_angle, H.
Qed.

Lemma smoothing_forgets_older_frames_witness :
  let s := process_frames "squat" (target_angles squat) start_camera
             ([Some 170; None; Some 20] ++ repeat (Some 90) 10) in
  let s' := process_frames "squat" (target_angles squat) start_camera
              (repeat (Some 90) 10) in
  angle_buffer s = angle_buffer s'
  /\ last (session_angles s) 0 = last (session_angles s') 0.
Proof.
  apply (smoothing_forgets_older_frames "squat" (target_angles squat)
           ([Some 170; None; Some 20] ++ repeat (Some 90) 10)
           (repeat (Some 90) 10)).
  reflexivity.
Defined.

(** ** Every exercise branch: what one step can do *)

Lemma detect_rep_outcome (ex : string) (t : TargetAngles) (d cur : Direction)
    (p a : Q) (rc : bool) (n : nat) :
  detect_rep ex t d cur p a rc n = (rc, n)
  \/ (detect_rep ex t d cur p a rc n = (false, n)
      /\ reset_fires ex t a = true)
  \/ (detect_rep ex t d cur p a rc n = (true, S n)
      /\ rc = false
      /\ reversal ex d cur = true
      /\ near_completion ex t p = true).
Proof.
  unfold detect_rep, reset_fires, near_completion, reversal, hysteresis.
  repeat match goal with
    | |- context [String.eqb ex ?k] => destruct (String.eqb ex k)
    end;
    destruct d, cur, rc; cbn [dir_eqb andb negb];
    repeat match goal with
      | |- context [Qgtb ?x ?y] => destruct (Qgtb x y)
      | |- context [Qltb ?x ?y] => destruct (Qltb x y)
      end;
    cbn [dir_eqb andb negb]; auto 6.
Qed.

Lemma track_rep_outcome (ex : string) (t : TargetAngles) (st : RepState)
    (a : Q) :
  let st' := track_rep ex t st a in
  prev_angle st' = Some a
  /\ ((session_reps st' = session_reps st
       /\ (rep_counted st' = rep_counted st
           \/ (rep_counted st' = false /\ reset_fires ex t a = true)))
      \/ (session_reps st' = S (session_reps st)
          /\ rep_counted st = false /\ rep_counted st' = true
          /\ exists p, prev_angle st = Some p
                       /\ direction st' = current_direction a p
                       /\ reversal ex (direction st) (direction st') = true
                       /\ near_completion ex t p = true)).
Proof.
  destruct st as [[p|] d rc n]; unfold track_rep;
    cbn [prev_angle direction rep_counted session_reps].
  - fold (current_direction a p).
    destruct (detect_rep_outcome ex t d (current_direction a p) p a rc n)
      as [E|[[E Hr]|(E & Hrc & Hrev & Hnear)]]; rewrite E;
      cbn [prev_angle direction rep_counted session_reps];
      (split; [reflexivity|]); auto.
    right. repeat split; auto. exists p. auto.
  - split; [reflexivity|]. left. auto.
Qed.

Lemma track_rep_direction (ex : string) (t : TargetAngles) (st : RepState)
    (a p : Q) :
  prev_angle st = Some p ->
  direction (track_rep ex t st a) = current_direction a p.
Proof.
  destruct st as [[q|] d rc n]; intros [= <-]. unfold track_rep.
  cbn [prev_angle direction rep_counted session_reps].
  fold (current_direction a q).
  now destruct (detect_rep ex t d (current_direction a q) q a rc n).
Qed.

Lemma track_reps_cons (ex : string) (t : TargetAngles) (st : RepState)
    (a : Q) (l : list Q) :
  track_reps ex t st (a :: l) = track_reps ex t (track_rep ex t st a) l.
Proof. reflexivity. Qed.

(** ** Bounds on the counter, for every exercise *)

Lemma track_reps_potential (ex : string) (t : TargetAngles) (l : list Q)
    (st : RepState) :
  let st' := track_reps ex t st l in
  (session_reps st <= session_reps st')%nat
  /\ (2 * session_reps st' + b2n (rep_counted st)
      <= 2 * session_reps st + List.length l + b2n (rep_counted st'))%nat.
Proof.
  revert st; induction l as [|a l IH]; intros st; [cbn; lia|].
  cbn zeta. rewrite track_reps_cons.
  specialize (IH (track_rep ex t st a)). cbn zeta in IH.
  destruct IH as [IH1 IH2].
  destruct (track_rep_outcome ex t st a)
    as [_ [[Hn [Hrc|[Hrc _]]]|(Hn & Hrc & Hrc' & _)]];
    rewrite ?Hn, ?Hrc, ?Hrc' in *; cbn [List.length b2n] in *;
    destruct (rep_counted st); cbn [b2n] in *; lia.
Qed.

(** The counter never decreases, and a fresh tracker fed [n] smoothed
    angles has counted at most [(n - 1) / 2] repetitions, whatever the
    exercise, its target angles and the angles. *)
Theorem rep_counter_bounded (ex : string) (t : TargetAngles) :
  (forall st l,
      (session_reps st <= session_reps (track_reps ex t st l))%nat)
  /\ (forall l,
        (2 * session_reps (track_reps ex t rep_init l)
         <= List.length l - 1)%nat).
Proof.
  split; [intros st l; apply (track_reps_potential ex t l st)|].
  intros [|a [|b l]]; [cbn; lia | cbn; lia |].
  pose proof (track_first_two ex t [a; b] ltac:(cbn; lia)) as H2.
  change (a :: b :: l) with ([a; b] ++ l).
  unfold track_reps in *. rewrite fold_left_app.
  set (st2 := fold_left (track_rep ex t) [a; b] rep_init) in *.
  assert (Hrc : rep_counted st2 = false).
  { subst st2. cbn [fold_left]. unfold track_rep at 2.
    cbn [prev_angle rep_init rep_counted session_reps direction].
    unfold track_rep.
    cbn [prev_angle rep_counted session_reps direction].
    destruct (detect_rep_outcome ex t dir_none
                (if Qgtb b a then dir_up else dir_down) a b false 0)
      as [E|[[E _]|(E & _ & Hrev & _)]]; rewrite E; try reflexivity.
    exfalso. unfold reversal in Hrev.
    repeat match type of Hrev with
      | context [String.eqb ex ?k] => destruct (String.eqb ex k)
      end; discriminate Hrev. }
  destruct (track_reps_potential ex t l st2) as [_ H].
  unfold track_reps in H. rewrite H2, Hrc in H. cbn [b2n] in H.
  rewrite length_app. cbn [List.length].
  destruct (rep_counted (fold_left (track_rep ex t) l st2));
    cbn [b2n] in H; lia.
Qed.

(** For every exercise: a stretch of smoothed angles on which the reset
    test of the exercise never fires adds at most one repetition, from any
    state of the tracker. *)
Theorem one_rep_between_resets
    (ex : string) (t : TargetAngles) (st : RepState) (l : list Q) :
  forallb (fun a => negb (reset_fires ex t a)) l = true ->
  (session_reps (track_reps ex t st l) <= S (session_reps st))%nat.
Proof.
  revert st.
  assert (Hcounted : forall l st,
    forallb (fun a => negb (reset_fires ex t a)) l = true ->
    rep_counted st = true ->
    session_reps (track_reps ex t st l) = session_reps st).
  { clear l. induction l as [|a l IH]; intros st Hl Hrc; [reflexivity|].
    cbn [forallb] in Hl. apply andb_true_iff in Hl as [Ha Hl].
    apply negb_true_iff in Ha. rewrite track_reps_cons.
    destruct (track_rep_outcome ex t st a)
      as [_ [[Hn [Hrc'|[_ Hr]]]|(_ & Hrc' & _)]]; try congruence.
    rewrite (IH _ Hl); congruence. }
  induction l as [|a l IH]; intros st Hl; [cbn; lia|].
  cbn [forallb] in Hl. apply andb_true_iff in Hl as [Ha Hl].
  rewrite track_reps_cons.
  destruct (track_rep_outcome ex t st a)
    as [_ [[Hn _]|(Hn & _ & Hrc' & _)]].
  - rewrite <- Hn. now apply IH.
  - rewrite (Hcounted l _ Hl Hrc'). lia.
Qed.

Lemma one_rep_between_resets_witness :
  (session_reps
     (track_reps "push-up" (target_angles push_up) rep_init
        (map inject_Z [120; 150; 145; 155; 150; 158; 152]%Z))
   <= 1)%nat.
Proof.
  apply (one_rep_between_resets "push-up" (target_angles push_up) rep_init).
  reflexivity.
Defined.

(** For every exercise: while the smoothed angle has not been beyond the
    completion threshold of the exercise (below min+10 for the bicep curl,
    above max-20 for push-up and squat, above max-10 for the shoulder
    press), nothing is counted. *)
Theorem no_rep_without_reaching_threshold
    (ex : string) (t : TargetAngles) (l : list Q) :
  forallb (fun a => negb (near_completion ex t a)) l = true ->
  session_reps (track_reps ex t rep_init l) = 0%nat.
Proof.
  assert (H : forall l st,
    forallb (fun a => negb (near_completion ex t a)) l = true ->
    (forall p, prev_angle st = Some p -> near_completion ex t p = false) ->
    session_reps (track_reps ex t st l) = session_reps st).
  { clear l. induction l as [|a l IH]; intros st Hl Hp; [reflexivity|].
    cbn [forallb] in Hl. apply andb_true_iff in Hl as [Ha Hl].
    apply negb_true_iff in Ha. rewrite track_reps_cons.
    destruct (track_rep_outcome ex t st a)
      as [Hprev [[Hn _]|(_ & _ & _ & p & Hp' & _ & _ & Hnear)]].
    - rewrite (IH _ Hl); [exact Hn|].
      intros p Hp'. rewrite Hprev in Hp'. now injection Hp' as <-.
    - rewrite (Hp p Hp') in Hnear. discriminate Hnear. }
  intros Hl. rewrite (H l rep_init Hl); [reflexivity|].
  intros p Hp. discriminate Hp.
Qed.

Lemma no_rep_without_reaching_threshold_witness :
  session_reps
    (track_reps "bicep curl" (target_angles bicep_curl) rep_init
       (map inject_Z [160; 100; 45; 100; 160; 100; 41; 90; 160]%Z))
  = 0%nat.
Proof.
  apply (no_rep_without_reaching_threshold "bicep curl"
           (target_angles bicep_curl)).
  reflexivity.
Defined.

(** A key outside the registry has no entry, no counting branch and no
    feedback branch: the counter and [rep_counted] stay as they are and
    every angle gets "No feedback available". *)
Theorem unregistered_exercise (key : string) :
  exercise_data key = None ->
  (forall t st l,
      session_reps (track_reps key t st l) = session_reps st
      /\ rep_counted (track_reps key t st l) = rep_counted st)
  /\ (forall a t, generate_feedback a t key = "No feedback available").
Proof.
  unfold exercise_data, exercise_table, dict_get.
  destruct (String.eqb key "bicep curl") eqn:E1; [discriminate|].
  destruct (String.eqb key "push-up") eqn:E2; [discriminate|].
  destruct (String.eqb key "squat") eqn:E3; [discriminate|].
  destruct (String.eqb key "shoulder press") eqn:E4; [discriminate|].
  intros _. split.
  - intros t st l. revert st. induction l as [|a l IH]; intros st;
      [now split|].
    rewrite track_reps_cons. destruct (IH (track_rep key t st a)) as [-> ->].
    destruct st as [[p|] d rc n]; unfold track_rep, detect_rep;
      cbn [prev_angle direction rep_counted session_reps];
      rewrite ?E1, ?E2, ?E3, ?E4; now split.
  - intros a t. unfold generate_feedback. now rewrite E1, E2, E3, E4.
Qed.

Lemma unregistered_exercise_witness :
  session_reps
    (track_reps "lunge" (target_angles squat) rep_init
       (map inject_Z [170; 160; 175; 60; 175]%Z)) = 0%nat
  /\ generate_feedback 90 (target_angles squat) "lunge"
     = "No feedback available".
Proof.
  destruct (unregistered_exercise "lunge" eq_refl) as [Hreps Hfb].
  split; [apply Hreps | apply Hfb].
Defined.

Lemma reversal_from_up_or_down (ex : string) (d cur : Direction) :
  reversal ex d cur = true ->
  reversal ex dir_down cur || reversal ex dir_up cur = true.
Proof.
  unfold reversal.
  repeat match goal with
    | |- context [String.eqb ex ?k] => destruct (String.eqb ex k)
    end; destruct d, cur; cbn; auto.
Qed.

(** For every exercise a repetition needs a completion move: two
    consecutive smoothed angles [y], [z] with [y] beyond the completion
    threshold and [z] on the side of [y] the exercise asks for.  For the
    shoulder press that is a rise that starts above max-10, so presses
    that rise from below max-10 and come back down count nothing. *)
Theorem no_rep_without_completion_move
    (ex : string) (t : TargetAngles) (l : list Q) :
  has_completion_move ex t l = false ->
  session_reps (track_reps ex t rep_init l) = 0%nat.
Proof.
  assert (H : forall l y st,
    prev_angle st = Some y ->
    has_completion_move ex t (y :: l) = false ->
    session_reps (track_reps ex t st l) = session_reps st).
  { clear l. induction l as [|z l IH]; intros y st Hy Hl; [reflexivity|].
    cbn [has_completion_move] in Hl. apply orb_false_iff in Hl as [Hm Hl].
    rewrite track_reps_cons.
    destruct (track_rep_outcome ex t st z)
      as [Hprev [[Hn _]|(_ & _ & _ & p & Hp & Hd & Hrev & Hnear)]].
    - rewrite (IH z _ Hprev Hl). exact Hn.
    - rewrite Hy in Hp. injection Hp as <-. exfalso.
      unfold completion_move in Hm. rewrite Hnear, <- Hd in Hm.
      rewrite (reversal_from_up_or_down _ _ _ Hrev) in Hm.
      discriminate Hm. }
  destruct l as [|y l]; [reflexivity|]. intros Hl.
  rewrite track_reps_cons.
  now rewrite (H l y (track_rep ex t rep_init y) eq_refl Hl).
Qed.

Lemma no_rep_without_completion_move_witness :
  session_reps
    (track_reps "shoulder press" (target_angles shoulder_press) rep_init
                two_presses)
  = 0%nat.
Proof.
  apply (no_rep_without_completion_move "shoulder press"
           (target_angles shoulder_press) two_presses).
  reflexivity.
Defined.

(* ================================================================== *)
(** * Session summary *)

(** ** The feedback histogram and its most common entry *)

Lemma keys_dict_incr (d : list (string * nat)) (k : string) :
  map fst (dict_incr d k) = add_key (map fst d) k.
Proof.
  unfold add_key. induction d as [|[k' n] d IH]; [reflexivity|].
  cbn [dict_incr map fst existsb].
  destruct (String.eqb k k'); [reflexivity|].
  cbn [map fst orb]. rewrite IH.
  now destruct (existsb (String.eqb k) (map fst d)).
Qed.

Lemma keys_feedback_counts (fb : list string) :
  map fst (feedback_counts fb) = first_occurrences fb.
Proof.
  unfold feedback_counts, first_occurrences.
  change (@nil string) with (map fst (@nil (string * nat))).
  generalize (@nil (string * nat)) as d.
  induction fb as [|x fb IH]; intros d; [reflexivity|].
  cbn [fold_left]. now rewrite IH, keys_dict_incr.
Qed.

Lemma existsb_eqb_In (k : string) (l : list string) :
  existsb (String.eqb k) l = true <-> In k l.
Proof.
  rewrite existsb_exists. split.
  - intros (x & Hx & E). apply String.eqb_eq in E. now subst.
  - intros H. exists k. split; [exact H|apply String.eqb_refl].
Qed.

(** What [dict_incr] does to the entries of a dictionary with distinct
    keys. *)
Lemma dict_incr_entries (d : list (string * nat)) (x k : string) (n : nat) :
  NoDup (map fst d) ->
  In (k, n) (dict_incr d x) <->
  (k <> x /\ In (k, n) d)
  \/ (k = x /\ ((exists n', n = S n' /\ In (x, n') d)
                \/ (n = 1%nat /\ ~ In x (map fst d)))).
Proof.
  induction d as [|[k' n'] d IH]; intros Hnd.
  - cbn. split.
    + intros [[= <- <-]|[]]. right. split; [reflexivity|]. right. tauto.
    + intros [[_ []]|[-> [(m & _ & [])|[-> _]]]]. now left.
  - apply NoDup_cons_iff in Hnd as [Hk' Hnd]. specialize (IH Hnd).
    cbn [dict_incr map fst In]. destruct (String.eqb_spec x k') as [->|Hne].
    + cbn [In]. split.
      * intros [[= <- <-]|Hin].
        -- right. split; [reflexivity|]. left. exists n'. auto.
        -- left. split; [|now right]. intros ->. apply Hk'.
           now apply (in_map fst) in Hin.
      * intros [[Hne [[= <- <-]|Hin]]|[-> [(m & -> & [[= <-]|Hin])|[_ Hn]]]].
        -- congruence.
        -- now right.
        -- now left.
        -- exfalso. apply Hk'. now apply (in_map fst) in Hin.
        -- exfalso. apply Hn. now left.
    + cbn [In]. rewrite IH. split.
      * intros [[= <- <-]|[[Hk Hin]|[-> [(m & -> & Hin)|[-> Hn]]]]].
        -- left. split; [congruence|now left].
        -- left. split; [exact Hk|now right].
        -- right. split; [reflexivity|]. left. exists m. auto.
        -- right. split; [reflexivity|]. right. split; [reflexivity|].
           intros [E|Hin]; [congruence|auto].
      * intros [[Hk [[= <- <-]|Hin]]|[-> [(m & -> & [[= E _]|Hin])|[-> Hn]]]].
        -- now left.
        -- right. left. auto.
        -- congruence.
        -- right. right. split; [reflexivity|]. left. exists m. auto.
        -- right. right. split; [reflexivity|]. right. split; [reflexivity|].
           intros Hin. apply Hn. now right.
Qed.

Lemma NoDup_add_key (acc : list string) (k : string) :
  NoDup acc -> NoDup (add_key acc k).
Proof.
  intros Hnd. unfold add_key.
  destruct (existsb (String.eqb k) acc) eqn:E; [exact Hnd|].
  apply NoDup_app; [exact Hnd | repeat constructor; intros [] |].
  intros a Ha [<-|[]].
  apply existsb_eqb_In in Ha. congruence.
Qed.

Lemma In_add_key (acc : list string) (k k' : string) :
  In k' (add_key acc k) <-> In k' acc \/ k' = k.
Proof.
  unfold add_key. destruct (existsb (String.eqb k) acc) eqn:E.
  - apply existsb_eqb_In in E. split; [auto|]. intros [H| ->]; auto.
  - rewrite in_app_iff. cbn. intuition congruence.
Qed.

Lemma histogram_step (pre : list string) (d : list (string * nat))
    (x : string) :
  histogram_of pre d -> histogram_of (pre ++ [x]) (dict_incr d x).
Proof.
  intros (Hnd & Hkeys & Hcnt). split; [|split].
  - rewrite keys_dict_incr. now apply NoDup_add_key.
  - intros k. rewrite keys_dict_incr, In_add_key, in_app_iff. cbn.
    rewrite Hkeys. intuition congruence.
  - intros k n Hin. apply (dict_incr_entries d x k n Hnd) in Hin.
    rewrite count_occ_app. cbn [count_occ].
    destruct Hin as [[Hk Hin]|[-> [(m & -> & Hin)|[-> Hn]]]].
    + destruct (string_dec x k); [congruence|].
      rewrite (Hcnt _ _ Hin). lia.
    + destruct (string_dec x x); [|congruence].
      rewrite (Hcnt _ _ Hin). lia.
    + destruct (string_dec x x); [|congruence].
      rewrite <- Hkeys in Hn.
      apply (count_occ_not_In string_dec) in Hn. lia.
Qed.

Lemma histogram_feedback_counts (fb : list string) :
  histogram_of fb (feedback_counts fb).
Proof.
  unfold feedback_counts.
  assert (H : forall fb pre d,
             histogram_of pre d ->
             histogram_of (pre ++ fb) (fold_left dict_incr fb d)).
  { clear fb. induction fb as [|x fb IH]; intros pre d Hd.
    - now rewrite app_nil_r.
    - cbn [fold_left].
      replace (pre ++ x :: fb) with ((pre ++ [x]) ++ fb)
        by (now rewrite <- app_assoc).
      apply IH. now apply histogram_step. }
  apply (H fb [] []). repeat split; cbn; try constructor; tauto.
Qed.

(** [max_by_count] returns the first of the items with the largest
    count. *)
Lemma max_by_count_first (items a c : list (string * nat))
    (best : string * nat) :
  Forall (fun it => (snd it < snd best)%nat) a ->
  Forall (fun it => (snd it <= snd best)%nat) c ->
  exists a' c',
    a ++ best :: c ++ items = a' ++ max_by_count best items :: c'
    /\ Forall (fun it => (snd it < snd (max_by_count best items))%nat) a'
    /\ Forall (fun it => (snd it <= snd (max_by_count best items))%nat) c'.
Proof.
  revert a c best. induction items as [|it items IH]; intros a c best Ha Hc.
  - exists a, c. now rewrite app_nil_r.
  - cbn [max_by_count]. destruct (Nat.ltb_spec (snd best) (snd it)) as [Hlt|Hge].
    + destruct (IH (a ++ best :: c) [] it) as (a' & c' & E & Ha' & Hc').
      * apply Forall_app. split; [|constructor; [exact Hlt|]].
        -- revert Ha. apply Forall_impl. intros; lia.
        -- revert Hc. apply Forall_impl. intros; lia.
      * constructor.
      * exists a', c'. split; [|now split].
        rewrite <- E. cbn [app]. now rewrite <- !app_assoc.
    + destruct (IH a (c ++ [it]) best Ha) as (a' & c' & E & Ha' & Hc').
      * apply Forall_app. split; [exact Hc|]. now repeat constructor.
      * exists a', c'. split; [|now split].
        rewrite <- E. now rewrite <- app_assoc.
Qed.

(** The summary of a session with at least one feedback message names a
    message [k] of the log with its number [n] of occurrences; no message
    occurs more often; and among the messages that occur [n] times [k] is
    the one that occurred first: every message first seen before [k]
    occurs less than [n] times. *)
Theorem most_common_feedback (fb : list string) :
  fb <> [] ->
  exists k n before after,
    most_common fb = Some (k, n)
    /\ In k fb
    /\ n = count_occ string_dec fb k
    /\ (forall k', (count_occ string_dec fb k' <= n)%nat)
    /\ first_occurrences fb = before ++ k :: after
    /\ (forall k', In k' before -> (count_occ string_dec fb k' < n)%nat).
Proof.
  intros Hne. destruct (histogram_feedback_counts fb) as (Hnd & Hkeys & Hcnt).
  unfold most_common. destruct (feedback_counts fb) as [|it rest] eqn:Ed.
  { destruct fb as [|x fb]; [congruence|]. exfalso.
    apply (proj1 (Hkeys x)). now left. }
  destruct (max_by_count_first rest [] [] it) as (a & c & E & Ha & Hc);
    [constructor | constructor |].
  cbn [app] in E. destruct (max_by_count it rest) as [k n] eqn:Em.
  cbn [snd] in Ha, Hc.
  assert (Hin : In (k, n) (it :: rest))
    by (rewrite E; apply in_elt).
  exists k, n, (map fst a), (map fst c). split; [reflexivity|].
  split; [apply Hkeys; now apply (in_map fst) in Hin|].
  split; [now apply Hcnt|]. split; [|split].
  - intros k'. destruct (in_dec string_dec k' fb) as [Hk'|Hk'].
    + apply Hkeys, in_map_iff in Hk' as ([k'' m] & E' & Hm).
      cbn in E'. subst k''. rewrite <- (Hcnt _ _ Hm).
      rewrite E in Hm. apply in_app_or in Hm as [Hm|[[= _ <-]|Hm]].
      * rewrite Forall_forall in Ha. specialize (Ha _ Hm). cbn in Ha. lia.
      * lia.
      * rewrite Forall_forall in Hc. now specialize (Hc _ Hm).
    + apply (count_occ_not_In string_dec) in Hk'. lia.
  - rewrite <- keys_feedback_counts, Ed, E, map_app. reflexivity.
  - intros k' Hk'. apply in_map_iff in Hk' as ([k'' m] & E' & Hm).
    cbn in E'. subst k''.
    assert (Hm' : In (k', m) (it :: rest))
      by (rewrite E; apply in_or_app; now left).
    rewrite <- (Hcnt _ _ Hm').
    rewrite Forall_forall in Ha. now specialize (Ha _ Hm).
Qed.

Lemma most_common_feedback_witness :
  exists k n,
    most_common ["Good Form"; "Extend more"; "Extend more"; "Good Form"]
    = Some (k, n)
    /\ n = count_occ string_dec
             ["Good Form"; "Extend more"; "Extend more"; "Good Form"] k.
Proof.
  destruct (most_common_feedback
              ["Good Form"; "Extend more"; "Extend more"; "Good Form"])
    as (k & n & before & after & E & _ & Hn & _); [discriminate|].
  exists k, n. now split.
Defined.

(** In the branch of the summary that shows it, the most common feedback
    is defined: a session with a recorded angle has a feedback log, and
    the message named is the classification of one of its smoothed
    angles. *)
Theorem summary_feedback_defined
    (ex : string) (t : TargetAngles) (frames : list (option Q)) :
  let s := process_frames ex t start_camera frames in
  session_angles s <> [] ->
  exists k n a,
    most_common (session_feedback s) = Some (k, n)
    /\ In a (session_angles s)
    /\ k = generate_feedback a t ex.
Proof.
  cbn zeta. intros Hne.
  destruct (feedback_log_follows_angles ex t frames) as (Hfb & _).
  cbn zeta in Hfb.
  destruct (most_common_feedback
              (session_feedback (process_frames ex t start_camera frames)))
    as (k & n & _ & _ & E & Hin & _).
  - rewrite Hfb. destruct (session_angles _); [congruence|discriminate].
  - rewrite Hfb in Hin. apply in_map_iff in Hin as (a & Ha & Hin).
    exists k, n, a. auto.
Qed.

Lemma summary_feedback_defined_witness :
  exists k n a,
    most_common (session_feedback (curl_session [95; 100; 160])) = Some (k, n)
    /\ In a (session_angles (curl_session [95; 100; 160]))
    /\ k = generate_feedback a (target_angles bicep_curl) "bicep curl".
Proof.
  apply (summary_feedback_defined "bicep curl" (target_angles bicep_curl)
           (map Some [95; 100; 160])).
  discriminate.
Defined.

(** ** The sampled angles of the chart *)

Lemma slice_from_length (l : list Q) (skip step : nat) :
  (1 <= step)%nat ->
  List.length (slice_from skip step l)
  = ((List.length l - skip + (step - 1)) / step)%nat.
Proof.
  intros Hstep. revert skip.
  induction l as [|x l IH]; intros skip.
  - cbn [slice_from List.length]. cbn [Nat.sub Nat.add].
    symmetry. apply Nat.div_small. lia.
  - cbn [slice_from List.length]. destruct skip as [|k].
    + cbn [List.length]. rewrite IH.
      replace (S (List.length l) - 0 + (step - 1))%nat
        with (List.length l + 1 * step)%nat by lia.
      rewrite Nat.div_add by lia.
      destruct (Nat.le_gt_cases (step - 1) (List.length l)) as [Hle|Hgt].
      * replace (List.length l - (step - 1) + (step - 1))%nat
          with (List.length l) by lia. lia.
      * replace (List.length l - (step - 1))%nat with 0%nat by lia.
        rewrite (Nat.div_small (0 + (step - 1))) by lia.
        rewrite (Nat.div_small (List.length l)) by lia. lia.
    + rewrite IH. f_equal.
Qed.

Lemma slice_from_all (l : list Q) : slice_from 0 1 l = l.
Proof.
  induction l as [|x l IH]; [reflexivity|].
  cbn [slice_from Nat.sub]. now rewrite IH.
Qed.

Lemma slice_from_incl (l : list Q) (skip step : nat) (a : Q) :
  In a (slice_from skip step l) -> In a l.
Proof.
  revert skip. induction l as [|x l IH]; intros skip; [easy|].
  cbn [slice_from]. destruct skip as [|k].
  - intros [<-|H]; [now left|right; eauto].
  - intros H. right. eauto.
Qed.

(** The chart of the summary plots recorded angles only, starting with
    the first one; it plots all of them while fewer than 100 were
    recorded, and never more than 99 points (at least 50 once 50 were
    recorded). *)
Theorem sampled_angles_bounded (angles : list Q) :
  (forall a, In a (sampled_angles angles) -> In a angles)
  /\ hd_error (sampled_angles angles) = hd_error angles
  /\ ((List.length angles < 100)%nat -> sampled_angles angles = angles)
  /\ (List.length (sampled_angles angles) <= 99)%nat
  /\ ((50 <= List.length angles)%nat ->
      (50 <= List.length (sampled_angles angles))%nat).
Proof.
  unfold sampled_angles.
  set (n := List.length angles).
  set (step := Nat.max 1 (n / 50)).
  assert (Hstep : (1 <= step)%nat) by (subst step; lia).
  assert (Hlen : List.length (slice_from 0 step angles)
                 = ((n + (step - 1)) / step)%nat).
  { rewrite slice_from_length by exact Hstep. fold n. f_equal. lia. }
  assert (Hdiv : (50 * (n / 50) <= n < 50 * (n / 50) + 50)%nat).
  { pose proof (Nat.div_mod_eq n 50).
    pose proof (Nat.mod_upper_bound n 50). lia. }
  split; [intros a; apply slice_from_incl|]. split; [|split; [|split]].
  - destruct angles; reflexivity.
  - intros Hn. replace step with 1%nat; [apply slice_from_all|].
    subst step. assert (n / 50 <= 1)%nat; [|lia].
    apply Nat.lt_succ_r, Nat.Div0.div_lt_upper_bound; lia.
  - rewrite Hlen. apply Nat.lt_succ_r, Nat.Div0.div_lt_upper_bound.
    subst step. destruct (Nat.max_spec 1 (n / 50)) as [[H ->]|[H ->]]; lia.
  - intros Hn. rewrite Hlen. apply Nat.div_le_lower_bound; [lia|].
    subst step. destruct (Nat.max_spec 1 (n / 50)) as [[H ->]|[H ->]]; lia.
Qed.


Lemma sampled_angles_bounded_witness :
  (50 <= List.length (sampled_angles (repeat 90%Q 120)) <= 99)%nat.
Proof.
  destruct (sampled_angles_bounded (repeat 90%Q 120))
    as (_ & _ & _ & H99 & H50).
  split; [apply H50; cbn; lia | exact H99].
Defined.

(* ================================================================== *)
(** * The activities file *)

Section Tails.

Context {A : Type}.

Lemma py_tail_length (n : nat) (l : list A) :
  List.length (py_tail n l) = Nat.min n (List.length l).
Proof. unfold py_tail. rewrite length_skipn. lia. Qed.

Lemma py_tail_short (n : nat) (l : list A) :
  (List.length l <= n)%nat -> py_tail n l = l.
Proof.
  intros H. unfold py_tail.
  now replace (List.length l - n)%nat with 0%nat by lia.
Qed.

(** Cutting, appending, cutting again is cutting once. *)
Lemma py_tail_app_tail (n : nat) (l l' : list A) :
  py_tail n (py_tail n l ++ l') = py_tail n (l ++ l').
Proof.
  unfold py_tail at 1 3. rewrite !length_app, py_tail_length.
  unfold py_tail. rewrite !skipn_app, length_skipn, skipn_skipn.
  f_equal; f_equal; lia.
Qed.

Lemma py_tail_snoc (n : nat) (l : list A) (x : A) :
  py_tail (S n) (l ++ [x]) = py_tail n l ++ [x].
Proof.
  unfold py_tail. rewrite length_app, skipn_app. cbn [List.length].
  replace (List.length l + 1 - S n)%nat with (List.length l - n)%nat by lia.
  replace (List.length l - n - List.length l)%nat with 0%nat by lia.
  reflexivity.
Qed.

End Tails.

Lemma store_sessions_snoc (f : ActivitiesFile)
    (sessions : list (ExerciseData * Z * Session))
    (e : ExerciseData) (d : Z) (s : Session) :
  store_sessions f (sessions ++ [(e, d, s)])
  = store_session e d s (store_sessions f sessions).
Proof. unfold store_sessions. now rewrite fold_left_app. Qed.

(** Whatever sessions are saved one after the other, the file ends up
    holding the last 20 of the records it held (none when it was missing
    or unreadable) followed by the records of the sessions that had
    angles, oldest first; sessions without angles leave it as it is. *)
Theorem file_keeps_latest_20 (f : ActivitiesFile)
    (sessions : list (ExerciseData * Z * Session)) :
  (List.length (load_recent_activities f) <= 20)%nat ->
  let f' := store_sessions f sessions in
  load_recent_activities f'
  = py_tail 20 (load_recent_activities f ++ records_of sessions)
  /\ (List.length (load_recent_activities f') <= 20)%nat
  /\ (records_of sessions = [] -> f' = f).
Proof.
  intros Hf. cbn zeta.
  assert (H : load_recent_activities (store_sessions f sessions)
              = py_tail 20 (load_recent_activities f ++ records_of sessions)
              /\ (records_of sessions = [] -> store_sessions f sessions = f)).
  { induction sessions as [|[[e d] s] sessions [IH1 IH2]] using rev_ind.
    - cbn. rewrite app_nil_r. split; [|reflexivity].
      symmetry. now apply py_tail_short.
    - rewrite store_sessions_snoc. unfold records_of in *.
      rewrite flat_map_app. cbn [flat_map]. rewrite app_nil_r.
      unfold store_session. destruct (save_session e d s) as [r|].
      + split.
        * cbn [load_recent_activities]. rewrite IH1, app_assoc.
          apply py_tail_app_tail.
        * intros E. now apply app_eq_nil in E as [_ E].
      + rewrite app_nil_r. split; [exact IH1|].
        intros E. now apply IH2. }
  destruct H as [H1 H2]. split; [exact H1|]. split; [|exact H2].
  rewrite H1, py_tail_length. lia.
Qed.

Lemma file_keeps_latest_20_witness :
  load_recent_activities
    (store_sessions unreadable
       [(bicep_curl, 125%Z, curl_session [160; 150]);
        (squat, 30%Z, start_camera);
        (bicep_curl, 61%Z, curl_session [90])])
  = py_tail 20
      (records_of
         [(bicep_curl, 125%Z, curl_session [160; 150]);
          (squat, 30%Z, start_camera);
          (bicep_curl, 61%Z, curl_session [90])]).
Proof.
  apply (file_keeps_latest_20 unreadable
           [(bicep_curl, 125%Z, curl_session [160; 150]);
            (squat, 30%Z, start_camera);
            (bicep_curl, 61%Z, curl_session [90])]).
  cbn. lia.
Defined.

(** Saving a session with angles puts its record last in the file, after
    the last 19 of the records the file held, and the dashboard, which
    lists the first three stored activities, shows it only while fewer
    than three were stored: with three to nineteen activities in the file
    the dashboard is the same before and after. *)
Theorem dashboard_lists_oldest_three
    (e : ExerciseData) (d : Z) (s : Session) (f : ActivitiesFile) :
  session_angles s <> [] ->
  exists r,
    save_session e d s = Some r
    /\ load_recent_activities (store_session e d s f)
       = py_tail 19 (load_recent_activities f) ++ [r]
    /\ ((List.length (load_recent_activities f) < 20)%nat ->
        dashboard_activities (store_session e d s f)
        = firstn 3 (load_recent_activities f ++ [r]))
    /\ ((3 <= List.length (load_recent_activities f) < 20)%nat ->
        dashboard_activities (store_session e d s f)
        = dashboard_activities f).
Proof.
  intros Hne. rewrite (save_session_record e d s Hne).
  eexists. split; [reflexivity|]. unfold store_session.
  rewrite (save_session_record e d s Hne).
  cbn [load_recent_activities]. split; [|split].
  - apply py_tail_snoc.
  - intros Hlen. unfold dashboard_activities.
    cbn [load_recent_activities].
    rewrite py_tail_short; [reflexivity|]. rewrite length_app. cbn. lia.
  - intros Hlen. unfold dashboard_activities.
    cbn [load_recent_activities].
    rewrite py_tail_short by (rewrite length_app; cbn; lia).
    rewrite firstn_app.
    replace (3 - List.length (load_recent_activities f))%nat with 0%nat
      by lia.
    cbn [firstn]. apply app_nil_r.
Qed.

Lemma dashboard_lists_oldest_three_witness :
  let f :=
    store_sessions no_file
      [(bicep_curl, 60%Z, curl_session [90]);
       (bicep_curl, 60%Z, curl_session [100]);
       (bicep_curl, 60%Z, curl_session [110])] in
  dashboard_activities
    (store_session bicep_curl 60 (curl_session [120]) f)
  = dashboard_activities f.
Proof.
  cbn zeta.
  destruct (dashboard_lists_oldest_three bicep_curl 60
              (curl_session [120])
              (store_sessions no_file
                 [(bicep_curl, 60%Z, curl_session [90]);
                  (bicep_curl, 60%Z, curl_session [100]);
                  (bicep_curl, 60%Z, curl_session [110])]))
    as (r & _ & _ & _ & H); [discriminate|].
  apply H. cbn. lia.
Defined.


(* ================================================================== *)
(** * Colours *)

(** Whatever performance an activity carries, also one outside [0, 100],
    the filled part of its bar is between 0 and the width of the
    background, empty at or below 0 and full at or above 100, and its
    colour is the colour of the performance as stored: the clamp never
    changes the colour. *)
Theorem performance_bar_bounded (dark_mode : bool) (reqwidth performance : Z) :
  (0 <= reqwidth)%Z ->
  let bar := performance_bar dark_mode reqwidth performance in
  fst bar = get_performance_color dark_mode performance
  /\ (0 <= snd bar <= reqwidth)%Z
  /\ ((performance <= 0)%Z -> snd bar = 0%Z)
  /\ ((100 <= performance)%Z -> snd bar = reqwidth).
Proof.
  intros Hw. unfold performance_bar. cbn [fst snd].
  set (p := Z.min 100 (Z.max 0 performance)).
  assert (Hp : (0 <= p <= 100)%Z) by (subst p; lia).
  assert (Hq : Z.quot (reqwidth * p) 100 = (reqwidth * p / 100)%Z)
    by (apply Z.quot_div_nonneg; nia).
  rewrite Hq. split; [|split; [|split]].
  - unfold get_performance_color, performance_key. f_equal. subst p.
    repeat match goal with
      | |- context [(?a <=? ?b)%Z] => destruct (Z.leb_spec a b)
      end; try reflexivity; lia.
  - split.
    + apply Z.div_pos; nia.
    + apply Z.div_le_upper_bound; nia.
  - intros Hle. replace p with 0%Z by (subst p; lia).
    now rewrite Z.mul_0_r.
  - intros Hge. replace p with 100%Z by (subst p; lia).
    now apply Z.div_mul.
Qed.

Lemma performance_bar_bounded_witness :
  (0 <= snd (performance_bar true 200 137) <= 200)%Z.
Proof.
  apply (performance_bar_bounded true 200 137). lia.
Defined.

(** For the registered exercises the feedback box is shown in the warning
    colour only for the bicep curl below min+10, and in the success colour
    exactly in the band that reads "Good": [min+10, max-10] for bicep curl,
    squat and shoulder press, below min+10 for the push-up; everything
    else is shown in the error colour. *)
Theorem feedback_colour_bands (key : string) (e : ExerciseData) (angle : Q) :
  exercise_data key = Some e ->
  let t := target_angles e in
  let k := feedback_key (generate_feedback angle t key) in
  let lo := inject_Z (t_min t + 10) in
  let hi := inject_Z (t_max t - 10) in
  (k = key_warning <-> key = "bicep curl" /\ angle < lo)
  /\ (k = key_success <->
      (key = "push-up" /\ angle < lo)
      \/ (key <> "push-up" /\ lo <= angle <= hi)).
Proof.
  intros He t k lo hi. subst t k lo hi.
  destruct (exercise_data_cases _ _ He)
    as [[-> ->]|[[-> ->]|[[-> ->]|[-> ->]]]];
    unfold generate_feedback; cbn -[Qgtb Qltb Qle Qlt feedback_key];
    threshold_cases; unfold inject_Z in *;
    (split; split);
    try (intros H; discriminate H);
    try (intros [H1 H2]; first [discriminate H1 | exfalso; Lqa.lra]);
    try (intros _; split; [reflexivity | Lqa.lra]);
    try (intros [[H1 H2]|[H1 H2]];
         first [discriminate H1 | exfalso; now apply H1
               | exfalso; Lqa.lra | reflexivity]);
    try (intros _; first [ left; split; [reflexivity | Lqa.lra]
                         | right; split; [discriminate | Lqa.lra] ]);
    try (intros _; reflexivity).
Qed.

Lemma feedback_colour_bands_witness :
  feedback_key (generate_feedback 35 (target_angles bicep_curl) "bicep curl")
  = key_warning.
Proof.
  destruct (feedback_colour_bands "bicep curl" bicep_curl 35 eq_refl)
    as [[_ H] _].
  apply H. split; [reflexivity|]. unfold Qlt; cbn; lia.
Defined.


(* ================================================================== *)
(** * Geometry of the joint angle *)

Section AngleGeometry.

Local Open Scope R_scope.

(** Decide the sign tests of every [arctan2] in the goal. *)
Ltac sign_cases :=
  repeat match goal with
    | |- context [Rlt_dec ?x ?y] => destruct (Rlt_dec x y)
    | |- context [Rle_dec ?x ?y] => destruct (Rle_dec x y)
    end.

(** [arctan2] depends on the direction of [(x, y)] only. *)
Lemma arctan2_scale (k y x : R) :
  0 < k -> arctan2 (k * y) (k * x) = arctan2 y x.
Proof.
  intros Hk. unfold arctan2. sign_cases; try nra;
    try (f_equal; f_equal; field; lra);
    try (f_equal; field; lra); reflexivity.
Qed.


(** The angle measured does not depend on where in the picture the three
    points lie nor on the scale of the picture: moving all three by the
    same shift and the same positive factor leaves it unchanged. *)
Theorem calculate_angle_scale_shift (k : R) (v a b c : Point) :
  0 < k ->
  calculate_angle (scale_shift k v a) (scale_shift k v b) (scale_shift k v c)
  = calculate_angle a b c.
Proof.
  intros Hk. unfold calculate_angle, scale_shift. cbn [fst snd].
  replace (k * snd c + snd v - (k * snd b + snd v))
    with (k * (snd c - snd b)) by ring.
  replace (k * fst c + fst v - (k * fst b + fst v))
    with (k * (fst c - fst b)) by ring.
  replace (k * snd a + snd v - (k * snd b + snd v))
    with (k * (snd a - snd b)) by ring.
  replace (k * fst a + fst v - (k * fst b + fst v))
    with (k * (fst a - fst b)) by ring.
  now rewrite !arctan2_scale.
Qed.

Lemma calculate_angle_scale_shift_witness :
  calculate_angle (scale_shift 2 (5, 7) (1, 0)) (scale_shift 2 (5, 7) (0, 0))
                  (scale_shift 2 (5, 7) (0, 1))
  = calculate_angle (1, 0) (0, 0) (0, 1).
Proof.
  apply (calculate_angle_scale_shift 2 (5, 7) (1, 0) (0, 0) (0, 1)). lra.
Defined.






End AngleGeometry.


(* ================================================================== *)
(** * Progress tracker *)

Lemma ascii_compare_trans (a b c : Ascii.ascii) :
  Ascii.compare a b = Lt -> Ascii.compare b c = Lt -> Ascii.compare a c = Lt.
Proof.
  unfold Ascii.compare. rewrite !N.compare_lt_iff. apply N.lt_trans.
Qed.

Lemma string_lt_trans (s1 s2 s3 : string) :
  string_lt s1 s2 -> string_lt s2 s3 -> string_lt s1 s3.
Proof.
  unfold string_lt. revert s2 s3.
  induction s1 as [|a s1 IH]; intros [|b s2] [|c s3]; cbn;
    try discriminate; try reflexivity.
  destruct (Ascii.compare a b) eqn:Eab; try discriminate;
    destruct (Ascii.compare b c) eqn:Ebc; try discriminate; intros H1 H2.
  - apply Ascii.compare_eq_iff in Eab, Ebc. subst.
    assert (E : Ascii.compare c c = Eq)
      by (unfold Ascii.compare; apply N.compare_refl).
    rewrite E. eauto.
  - apply Ascii.compare_eq_iff in Eab. subst. now rewrite Ebc.
  - apply Ascii.compare_eq_iff in Ebc. subst. now rewrite Eab.
  - now rewrite (ascii_compare_trans a b c Eab Ebc).
Qed.

Lemma string_lt_irrefl (s : string) : ~ string_lt s s.
Proof.
  unfold string_lt. intros H.
  pose proof (String.compare_antisym s s) as E. rewrite H in E.
  discriminate E.
Qed.

Lemma insert_sorted_In (k k' : string) (l : list string) :
  In k' (insert_sorted k l) <-> k' = k \/ In k' l.
Proof.
  induction l as [|x l IH]; cbn [insert_sorted In].
  - intuition.
  - destruct (String.compare k x) eqn:E; cbn [In].
    + apply String.compare_eq_iff in E. subst. intuition.
    + intuition.
    + rewrite IH. intuition.
Qed.

Lemma insert_sorted_sorted (k : string) (l : list string) :
  StronglySorted string_lt l -> StronglySorted string_lt (insert_sorted k l).
Proof.
  induction 1 as [|x l Hl IH Hx]; cbn [insert_sorted].
  - repeat constructor.
  - destruct (String.compare k x) eqn:E.
    + apply String.compare_eq_iff in E. subst. now constructor.
    + apply SSorted_cons; [now apply SSorted_cons|].
      apply Forall_cons; [exact E|].
      revert Hx. apply Forall_impl. intros y Hy.
      now apply (string_lt_trans k x y).
    + constructor; [exact IH|]. apply Forall_forall. intros y Hy.
      apply insert_sorted_In in Hy as [->|Hy].
      * unfold string_lt. rewrite String.compare_antisym, E. reflexivity.
      * rewrite Forall_forall in Hx. now apply Hx.
Qed.

Lemma sorted_set_spec (l : list string) :
  StronglySorted string_lt (sorted_set l)
  /\ (forall k, In k (sorted_set l) <-> In k l).
Proof.
  induction l as [|x l [IH1 IH2]]; cbn [sorted_set fold_right].
  - split; [constructor|tauto].
  - split; [now apply insert_sorted_sorted|].
    intros k. fold (sorted_set l). rewrite insert_sorted_In, IH2. cbn.
    intuition.
Qed.

Lemma sorted_NoDup (l : list string) :
  StronglySorted string_lt l -> NoDup l.
Proof.
  induction 1 as [|x l Hl IH Hx]; constructor; [|exact IH].
  intros Hin. rewrite Forall_forall in Hx.
  apply (string_lt_irrefl x). now apply Hx.
Qed.

(** One activity is listed under exactly one of a duplicate-free list of
    names that contains its own. *)
Lemma sessions_under_cons (a : SessionRecord) (acts : list SessionRecord)
    (tabs : list string) :
  NoDup tabs ->
  sessions_under (a :: acts) tabs
  = ((if in_dec string_dec (rec_exercise a) tabs then 1 else 0)
     + sessions_under acts tabs)%nat.
Proof.
  unfold sessions_under. induction 1 as [|k tabs Hk Hnd IH].
  - reflexivity.
  - cbn [map fold_right]. rewrite IH.
    unfold exercise_activities at 1. cbn [filter].
    fold (exercise_activities acts k).
    destruct (in_dec string_dec (rec_exercise a) (k :: tabs)) as [Hin|Hin];
      destruct (in_dec string_dec (rec_exercise a) tabs) as [Hin'|Hin'];
      destruct (String.eqb_spec (rec_exercise a) k) as [E|E];
      cbn [List.length]; try lia;
      exfalso; cbn [In] in *; intuition congruence.
Qed.

Lemma sessions_under_total (acts : list SessionRecord) (tabs : list string) :
  NoDup tabs ->
  (forall a, In a acts -> In (rec_exercise a) tabs) ->
  sessions_under acts tabs = List.length acts.
Proof.
  intros Hnd. induction acts as [|a acts IH]; intros Hall.
  - unfold sessions_under. clear. induction tabs; cbn; auto.
  - rewrite sessions_under_cons by exact Hnd.
    destruct (in_dec string_dec (rec_exercise a) tabs) as [_|Hn].
    + cbn [List.length]. rewrite IH; [reflexivity|].
      intros b Hb. apply Hall. now right.
    + exfalso. apply Hn, Hall. now left.
Qed.

(** The tabs of the progress page are the exercise names of the stored
    activities, each once, in ascending order; every tab lists at least
    one activity, and the sessions listed under the tabs add up to the
    stored activities: each activity appears under exactly one tab. *)
Theorem progress_tabs_partition (activities : list SessionRecord) :
  let tabs := progress_tabs activities in
  StronglySorted string_lt tabs
  /\ NoDup tabs
  /\ (forall k, In k tabs <-> exists a, In a activities /\ rec_exercise a = k)
  /\ (forall k, In k tabs -> exercise_activities activities k <> [])
  /\ sessions_under activities tabs = List.length activities.
Proof.
  cbn zeta. unfold progress_tabs.
  destruct (sorted_set_spec (map rec_exercise activities)) as [Hs Hin].
  assert (Hmem : forall k,
    In k (sorted_set (map rec_exercise activities))
    <-> exists a, In a activities /\ rec_exercise a = k).
  { intros k. rewrite Hin, in_map_iff. split; intros (a & H1 & H2); eauto. }
  pose proof (sorted_NoDup _ Hs) as Hnd.
  split; [exact Hs|]. split; [exact Hnd|]. split; [exact Hmem|]. split.
  - intros k Hk. apply Hmem in Hk as (a & Ha & E).
    intros Hnil.
    assert (Hf : In a (exercise_activities activities k)).
    { apply filter_In. split; [exact Ha|]. now apply String.eqb_eq. }
    rewrite Hnil in Hf. exact Hf.
  - apply sessions_under_total; [exact Hnd|].
    intros a Ha. apply Hin. now apply in_map.
Qed.




Lemma progress_tabs_partition_witness :
  let acts :=
    [mkRecord "Squat" 2 5 70 []; mkRecord "Push-Up" 1 3 20 [];
     mkRecord "Squat" 4 9 85 []] in
  progress_tabs acts = ["Push-Up"; "Squat"]
  /\ exercise_activities acts "Squat" <> []
  /\ sessions_under acts (progress_tabs acts) = 3%nat.
Proof.
  cbn zeta.
  destruct (progress_tabs_partition
              [mkRecord "Squat" 2 5 70 []; mkRecord "Push-Up" 1 3 20 [];
               mkRecord "Squat" 4 9 85 []])
    as (_ & _ & _ & Hne & Hsum).
  split; [reflexivity|]. split; [|exact Hsum].
  apply Hne. cbn. auto.
Defined.

(* ================================================================== *)
(** * How the score responds to the angles *)

Lemma spec_deviation_mono (t : TargetAngles) (a b : Q) :
  (0 < max_deviation t)%Z ->
  Qabs (a - inject_Z (t_ideal t)) <= Qabs (b - inject_Z (t_ideal t)) ->
  spec_deviation t a <= spec_deviation t b.
Proof.
  intros Hmd Hab. unfold spec_deviation.
  apply Q.min_le_compat_l. unfold Qdiv.
  apply Qmult_le_compat_r; [exact Hab|].
  apply Qinv_le_0_compat.
  change 0 with (inject_Z 0). rewrite <- Zle_Qle. lia.
Qed.

Lemma sum_map_le (f : Q -> Q) (l l' : list Q) :
  Forall2 (fun a b => f a <= f b) l l' ->
  fold_right Qplus 0 (map f l) <= fold_right Qplus 0 (map f l').
Proof.
  induction 1 as [|a b l l' Hab Hl IH]; cbn [map fold_right].
  - apply Qle_refl.
  - now apply Qplus_le_compat.
Qed.

(** The score looks at the distance of each smoothed angle from the ideal
    one only: for a profile with max_deviation > 0, a session that is
    frame by frame at least as close to the ideal angle as another scores
    at least as high, and mirroring every angle about the ideal angle
    leaves the score unchanged. *)
Theorem score_follows_distance_from_ideal
    (t : TargetAngles) (angles angles' : list Q) :
  (0 < max_deviation t)%Z ->
  angles <> [] ->
  Forall2 (fun a b => Qabs (a - inject_Z (t_ideal t))
                      <= Qabs (b - inject_Z (t_ideal t))) angles angles' ->
  (performance_score t angles' <= performance_score t angles)%Z
  /\ performance_score t
       (map (fun a => 2 * inject_Z (t_ideal t) - a) angles)
     = performance_score t angles.
Proof.
  intros Hmd Hne Hcloser.
  assert (Hlen : List.length angles = List.length angles')
    by (eapply Forall2_length; eassumption).
  assert (Hne' : angles' <> [])
    by (destruct angles, angles'; cbn in Hlen; congruence).
  destruct (performance_is_floor t angles Hne Hmd) as [E _].
  destruct (performance_is_floor t angles' Hne' Hmd) as [E' _].
  split.
  - rewrite E, E'. apply Qfloor_resp_le.
    assert (Hmean : mean (map (spec_deviation t) angles)
                    <= mean (map (spec_deviation t) angles')).
    { unfold mean, len. rewrite !length_map, <- Hlen.
      unfold Qdiv. apply Qmult_le_compat_r.
      - apply sum_map_le. revert Hcloser. apply Forall2_impl.
        intros a b. now apply spec_deviation_mono.
      - apply Qinv_le_0_compat.
        change 0 with (inject_Z 0). rewrite <- Zle_Qle. lia. }
    Lqa.lra.
  - assert (Hne2 : map (fun a => 2 * inject_Z (t_ideal t) - a) angles <> [])
      by (destruct angles; [congruence|discriminate]).
    destruct (performance_is_floor t _ Hne2 Hmd) as [E2 _].
    rewrite E, E2. apply Qfloor_comp. rewrite map_map.
    rewrite (mean_map_ext
               (fun a => spec_deviation t (2 * inject_Z (t_ideal t) - a))
               (spec_deviation t)); [reflexivity|].
    intros a. unfold spec_deviation.
    setoid_replace (2 * inject_Z (t_ideal t) - a - inject_Z (t_ideal t))
      with (inject_Z (t_ideal t) - a) by ring.
    now rewrite Qabs_Qminus.
Qed.

Lemma score_follows_distance_from_ideal_witness :
  (performance_score (target_angles squat) [70%Q; 170%Q]
   <= performance_score (target_angles squat) [100%Q; 125%Q])%Z.
Proof.
  apply (score_follows_distance_from_ideal (target_angles squat)
           [100; 125] [70; 170]).
  - reflexivity.
  - discriminate.
  - repeat constructor; apply Qle_bool_iff; reflexivity.
Defined.

(* ================================================================== *)
(** * The registry lookup of the frame loop *)

(** Once the loop has raised, the frames that follow are not read. *)
Lemma fold_left_raised {A B : Type} (f : option A -> B -> option A)
    (l : list B) :
  (forall b, f None b = None) -> fold_left f l None = None.
Proof.
  intros Hf. induction l as [|b l IH]; [reflexivity|].
  cbn [fold_left]. now rewrite Hf.
Qed.

(** For a registered exercise the loop never fails and is the frame loop
    on the exercise's target angles.  For a name that is not a key of
    [exercise_data] the lookup of line 868 is reached by the first frame
    with pose landmarks and by no other: the loop fails exactly when some
    frame has landmarks, and runs through a stream without any, leaving
    the session as [start_camera] set it up. *)
Theorem process_camera_feed_lookup
    (current_exercise : string) (frames : list (option Q)) :
  (forall e, exercise_data current_exercise = Some e ->
             process_camera_feed current_exercise frames
             = Some (process_frames current_exercise (target_angles e)
                                    start_camera frames))
  /\ (exercise_data current_exercise = None ->
      process_camera_feed current_exercise frames
      = match samples frames with
        | [] => Some start_camera
        | _ :: _ => None
        end).
Proof.
  unfold process_camera_feed, process_frames. split.
  - intros e He. rewrite He. generalize start_camera.
    induction frames as [|[a|] frames IH]; intros s; cbn [fold_left].
    + reflexivity.
    + apply IH.
    + apply IH.
  - intros He. rewrite He. generalize start_camera.
    induction frames as [|[a|] frames IH]; intros s; cbn [fold_left].
    + reflexivity.
    + cbn [samples flat_map app]. now apply fold_left_raised.
    + cbn [samples flat_map app]. apply IH.
Qed.

Lemma process_camera_feed_lookup_witness :
  process_camera_feed "lunge" [None; None] = Some start_camera
  /\ process_camera_feed "lunge" [None; Some 90; None] = None.
Proof.
  split.
  - apply (proj2 (process_camera_feed_lookup "lunge" [None; None])).
    reflexivity.
  - apply (proj2 (process_camera_feed_lookup "lunge" [None; Some 90; None])).
    reflexivity.
Defined.
